(** * pyHANSO: bfgs1run and hanso

    A shallow embedding of [bfgs1run.py] (one run of BFGS with inexact line
    search) and of [hanso.py] (the driver that post-processes the BFGS phase),
    together with the properties of the natural-language specification that
    concern them.

    Conventions.
    - Floating-point numbers are kept abstract behind the class [Scalar]; two
      instances are given: IEEE binary64 ([float], what numpy computes with:
      it has NaN and the infinities, and evaluates) and the real numbers
      ([R], exact arithmetic).
    - 1-D arrays are lists; a 2-D array is the list of its rows, except the
      gradient cache [G], [X], which is kept as the list of its columns
      (the source only ever prepends and drops columns of it).
    - Python exceptions are values of [exn]; a computation that may raise
      has type [result A].
    - The collaborators that are imported by the source but are not part of
      it ([linesch_ww], [linesch_sw], [qpspecial], [hgprod], [bfgs],
      [postprocess]), numpy's [linalg.eig] and [argmin] and the clock are
      section variables. *)

From Stdlib Require Import PrimFloat.
From Stdlib Require Import String Ascii.
From Stdlib Require Import List ZArith Lia Bool.
From Stdlib Require Import Reals Lra.
From Stdlib Require FloatAxioms.
Import ListNotations.

Set Implicit Arguments.
Set Warnings "-inexact-float".
Local Open Scope Z_scope.

(** ** Exceptions *)

Inductive exn : Type :=
| AssertionError
| UnboundLocalError
| TypeError
| ImportError
| IndexError
| ValueError
| NotImplementedError.

Inductive result (A : Type) : Type :=
| Ok (a : A)
| Raise (e : exn).

Arguments Ok {A} a.
Arguments Raise {A} e.

Definition bind {A B : Type} (m : result A) (k : A -> result B) : result B :=
  match m with
  | Ok a => k a
  | Raise e => Raise e
  end.

Declare Scope py_scope.
Delimit Scope py_scope with py.
Notation "x <- m ;; k" := (bind m (fun x => k))
  (at level 100, m at next level, right associativity) : py_scope.
Notation "m ;;; k" := (bind m (fun _ => k))
  (at level 100, right associativity) : py_scope.
Local Open Scope py_scope.

(** [assert b] *)
Definition py_assert (b : bool) : result unit :=
  if b then Ok tt else Raise AssertionError.

(** Truth value of a Python int used as a flag. *)
Definition truthy (z : Z) : bool := negb (z =? 0).

(** ** The [%] operator on strings

    [fmt % args] raises [TypeError] unless the number of conversion
    specifiers of [fmt] is the number of arguments ([args] that is not a
    tuple counts as one argument).  The log messages are built with it, and
    they are built before [_log] looks at [verbose]. *)

Definition is_letter (c : ascii) : bool :=
  let n := nat_of_ascii c in
  ((65 <=? n)%nat && (n <=? 90)%nat) || ((97 <=? n)%nat && (n <=? 122)%nat).

(** [in_spec] is true between a [%] and the letter that ends the
    specifier; [%%] is a literal percent sign. *)
Fixpoint count_specs (in_spec : bool) (s : string) : nat :=
  match s with
  | EmptyString => 0%nat
  | String c s' =>
      if in_spec then
        if Ascii.eqb c "%"%char then count_specs false s'
        else if is_letter c then S (count_specs false s')
        else count_specs true s'
      else
        if Ascii.eqb c "%"%char then count_specs true s'
        else count_specs false s'
  end.

Definition py_format (fmt : string) (nargs : nat) : result unit :=
  if (count_specs false fmt =? nargs)%nat then Ok tt else Raise TypeError.

(** ** Slices *)

(** [l[:k]] *)
Definition py_take {A : Type} (l : list A) (k : Z) : list A :=
  if k <? 0 then firstn (Z.to_nat (Z.of_nat (length l) + k)) l
  else firstn (Z.to_nat k) l.

(** [l[1:k]] *)
Definition py_slice1 {A : Type} (l : list A) (k : Z) : list A :=
  skipn 1 (py_take l k).

(** ** Scalars *)

Class Scalar (F : Type) : Type := {
  f0 : F;
  f1 : F;
  fadd : F -> F -> F;
  fsub : F -> F -> F;
  fmul : F -> F -> F;
  fdiv : F -> F -> F;
  fopp : F -> F;
  fsqrt : F -> F;
  (** [a < b], [a <= b], [a == b] *)
  flt : F -> F -> bool;
  fle : F -> F -> bool;
  feq : F -> F -> bool;
  isnan : F -> bool;
  isinf : F -> bool;
  (** the literal [1e-8] *)
  lit_1e_8 : F
}.

#[global] Instance float_Scalar : Scalar PrimFloat.float := {|
  f0 := 0%float;
  f1 := 1%float;
  fadd := PrimFloat.add;
  fsub := PrimFloat.sub;
  fmul := PrimFloat.mul;
  fdiv := PrimFloat.div;
  fopp := PrimFloat.opp;
  fsqrt := PrimFloat.sqrt;
  flt := PrimFloat.ltb;
  fle := PrimFloat.leb;
  feq := PrimFloat.eqb;
  isnan := PrimFloat.is_nan;
  isinf := PrimFloat.is_infinity;
  lit_1e_8 := PrimFloat.div 1%float 100000000%float
|}.

Definition Rltb (a b : R) : bool := if Rlt_dec a b then true else false.
Definition Rleb (a b : R) : bool := if Rle_dec a b then true else false.
Definition Reqb (a b : R) : bool := if Req_dec_T a b then true else false.

#[global] Instance R_Scalar : Scalar R := {|
  f0 := 0%R;
  f1 := 1%R;
  fadd := Rplus;
  fsub := Rminus;
  fmul := Rmult;
  fdiv := Rdiv;
  fopp := Ropp;
  fsqrt := R_sqrt.sqrt;
  flt := Rltb;
  fle := Rleb;
  feq := Reqb;
  isnan := fun _ => false;
  isinf := fun _ => false;
  lit_1e_8 := (1 / 100000000)%R
|}.

(** ** Vectors and matrices *)

Section LinAlg.
Context {F : Type} {SF : Scalar F}.
Local Abbreviation vec := (list F).
Local Abbreviation mat := (list (list F)).

Fixpoint map2 (op : F -> F -> F) (u v : vec) : vec :=
  match u, v with
  | a :: u', b :: v' => op a b :: map2 op u' v'
  | _, _ => []
  end.

Fixpoint mmap2 (op : F -> F -> F) (A B : mat) : mat :=
  match A, B with
  | r :: A', q :: B' => map2 op r q :: mmap2 op A' B'
  | _, _ => []
  end.

Definition vadd : vec -> vec -> vec := map2 fadd.
Definition vsub : vec -> vec -> vec := map2 fsub.
Definition vopp (v : vec) : vec := map fopp v.
Definition vscale (c : F) (v : vec) : vec := map (fmul c) v.

(** [np.dot] of two 1-D arrays *)
Fixpoint dot (u v : vec) : F :=
  match u, v with
  | a :: u', b :: v' => fadd (fmul a b) (dot u' v')
  | _, _ => f0
  end.

(** [numpy.linalg.norm(v, 2)] *)
Definition norm2 (v : vec) : F := fsqrt (dot v v).

(** [np.dot(M, v)] *)
Definition matvec (M : mat) (v : vec) : vec := map (fun row => dot row v) M.

(** [np.dot(u, v.T)] for a column [u] and a row [v.T] *)
Definition outer (u v : vec) : mat := map (fun a => map (fmul a) v) u.

Definition madd : mat -> mat -> mat := mmap2 fadd.
Definition msub : mat -> mat -> mat := mmap2 fsub.
Definition mscale (c : F) (M : mat) : mat := map (map (fmul c)) M.

(** [M.T]; the number of columns is read off the first row. *)
Definition transpose (M : mat) : mat :=
  map (fun j => map (fun row => nth j row f0) M)
      (seq 0 (length (hd [] M))).

(** [np.eye(n)] *)
Definition eye (n : nat) : mat :=
  map (fun i => map (fun j => if (i =? j)%nat then f1 else f0) (seq 0 n))
      (seq 0 n).

(** [np.max([a, b])] at line 313, where [a] is an array of one entry
    and [b] the int 0: the list is ragged, numpy reduces it as objects
    with Python's comparison and keeps [a] only if [a >= b]; a NaN [a]
    compares false and gives [b]. *)
Definition np_max2 (a b : F) : F :=
  if fle b a then a else b.

Definition any_nan (v : vec) : bool := existsb isnan v.
Definition any_inf (v : vec) : bool := existsb isinf v.

(** [M[i, j]] *)
Definition entry (M : mat) (i j : nat) : F := nth j (nth i M []) f0.

(** [M] has [n] rows of [n] entries. *)
Definition square (n : nat) (M : mat) : Prop :=
  length M = n /\ Forall (fun row => length row = n) M.

(** [M == M.T] *)
Definition symmetric (M : mat) : Prop := transpose M = M.
End LinAlg.

(** ** The gradient cache (bfgs1run.py, lines 199-212)

    [nG] is the source's counter, [G] the saved gradients and [X] the points
    where they were evaluated, most recent first.  [far] is the outcome of
    the test [alpha * norm(p) > evaldist]. *)

Section Cache.
Variable A : Type.

Record cache : Type := mk_cache {
  c_nG : Z;
  c_G : list A;
  c_X : list A
}.

Definition cache_step (far : bool) (ngrad : Z) (x g : A) (c : cache) : cache :=
  if far then
    mk_cache 1 [g] [x]
  else if c_nG c <? ngrad then
    mk_cache (c_nG c + 1) (g :: c_G c) (x :: c_X c)
  else
    mk_cache (c_nG c)
             (g :: py_take (c_G c) (ngrad - 1))
             (x :: py_take (c_X c) (ngrad - 1)).

(** The cache before the main loop: [nG = 1], [G = [g]], [X = [x]]. *)
Definition cache_init (x g : A) : cache := mk_cache 1 [g] [x].

(** A run of line-search steps, oldest first, each with its [far] flag. *)
Fixpoint cache_run (ngrad : Z) (steps : list (bool * (A * A))) (c : cache)
  : cache :=
  match steps with
  | [] => c
  | (far, (x, g)) :: rest => cache_run ngrad rest (cache_step far ngrad x g c)
  end.

(** The saved (point, gradient) pairs, most recent first. *)
Definition pairs (c : cache) : list (A * A) := combine (c_X c) (c_G c).

(** The counter is the number of saved gradients and of saved points, and
    lies between 1 and [ngrad]. *)
Definition cache_ok (ngrad : Z) (c : cache) : Prop :=
  c_nG c = Z.of_nat (length (c_G c))
  /\ length (c_X c) = length (c_G c)
  /\ 1 <= c_nG c <= ngrad.

(** The update in the words of the specification: reset to the singleton
    when the step was far, else push to the front and drop what exceeds
    [ngrad] from the old end. *)
Definition spec_cache_step (far : bool) (ngrad : Z) (xg : A * A)
           (l : list (A * A)) : list (A * A) :=
  if far then [xg] else firstn (Z.to_nat ngrad) (xg :: l).

(** The number of pairs the cache has received since it was last reset,
    the pair of the reset (or the initial pair) counted as the first; [k]
    is that number before [steps]. *)
Fixpoint since_reset (k : nat) (steps : list (bool * (A * A))) : nat :=
  match steps with
  | [] => k
  | (far, _) :: rest => since_reset (if far then 1%nat else S k) rest
  end.

(** All the pairs a run has seen, most recent first. *)
Definition seen (steps : list (bool * (A * A))) (first : A * A)
  : list (A * A) :=
  rev (map snd steps) ++ [first].
End Cache.

(** ** bfgs1run *)

Section Bfgs1run.
Context {F : Type} {SF : Scalar F}.
Local Abbreviation vec := (list F).
Local Abbreviation mat := (list (list F)).

(** What a line search returns:
    [alpha, x, f, g, fail, _, _, fevalrecline]. *)
Record ls_result : Type := mk_ls {
  ls_alpha : F;
  ls_x : vec;
  ls_f : F;
  ls_g : vec;
  ls_fail : Z;
  ls_fevalrecline : list F
}.

Definition linesearch : Type :=
  (vec -> F) -> (vec -> vec) -> vec -> vec -> F -> F -> F -> Z -> ls_result.

(** [w] is the int [1] until [qpspecial] has returned a weight vector. *)
Inductive weights : Type :=
| w_one
| w_vec (w : vec).

Record params : Type := mk_params {
  maxit : Z;
  nvec : Z;
  verbose : Z;
  normtol : F;
  fvalquit : F;
  xnormquit : F;
  cpumax : F;
  strongwolfe : bool;
  wolfe1 : F;
  wolfe2 : F;
  quitLSfail : Z;
  ngrad : option Z;
  evaldist : F;
  H0 : option mat;
  scale : Z
}.

(** The returned tuple
    [x, f, d, H, it, info, X, G, w, fevalrec, xrec, Hrec]. *)
Record output : Type := mk_output {
  o_x : vec;
  o_f : F;
  o_d : vec;
  o_H : mat;
  o_iter : Z;
  o_info : Z;
  o_X : list vec;
  o_G : list vec;
  o_w : weights;
  o_fevalrec : list (list F);
  o_xrec : list vec;
  o_Hrec : list mat
}.

(** The local variables that live across iterations. *)
Record state : Type := mk_state {
  st_x : vec;
  st_f : F;
  st_g : vec;
  st_d : vec;
  st_H : mat;
  st_S : list F;
  st_Y : list F;
  st_cache : cache vec;
  st_w : weights;
  st_dnorm : F;
  st_fevalrec : list (list F);
  st_xrec : list vec;
  st_Hrec : list mat
}.

Inductive control : Type :=
| Continue (st : state)
| Return (o : output).

Variable func : vec -> F.
Variable grad : vec -> vec.
Variable linesch_ww : linesearch.
(** [None]: the module [linesch_sw] cannot be imported. *)
Variable linesch_sw : option linesearch.
Variable qpspecial : list vec -> Z -> vec * vec.
Variable hgprod : mat -> vec -> list F -> list F -> vec.
(** [numpy.linalg.eig(H)[0]] *)
Variable eig : mat -> list F.
(** [time.time()] before the loop, and in iteration [it] at line 283. *)
Variable time_start : F.
Variable time_iter : Z -> F.

Variable P : params.

(** Lines 293-315: the rank-two update of the inverse Hessian. *)
Definition bfgs_prescale (it : Z) (Hm : mat) (y : vec) (sty : F) : mat :=
  if (it =? 0) && truthy (scale P) then
    mscale (fdiv (fmul f1 sty) (dot y y)) Hm
  else Hm.

Definition sstfactor (Hm : mat) (y : vec) (sty : F) : F :=
  let rho := fdiv f1 sty in
  let Hy := matvec Hm y in
  let ytHy := dot y Hy in
  np_max2 (fadd (fmul (fmul rho rho) ytHy) rho) f0.

Definition rank_two (Hm : mat) (s y : vec) (sty : F) : mat :=
  let rho := fdiv f1 sty in
  let Hy := matvec Hm y in
  let rhoHyst := mscale rho (outer Hy s) in
  let sscaled := vscale (fsqrt (sstfactor Hm y sty)) s in
  madd (msub Hm (madd (transpose rhoHyst) rhoHyst)) (outer sscaled sscaled).

Definition bfgs_update (it : Z) (Hm : mat) (s y : vec) (sty : F) : mat :=
  rank_two (bfgs_prescale it Hm y sty) s y sty.

(** Lines 288-337: the update of [H], [S], [Y] after the termination
    checks. [H0m] is the initial inverse Hessian. *)
Definition hessian_step (H0m : mat) (it : Z) (alpha : F) (p g gprev : vec)
           (Hm : mat) (Sv Yv : list F) : result (mat * (list F * list F)) :=
  let s := vscale alpha p in
  let y := vsub g gprev in
  let sty := dot s y in
  py_assert (flt f0 sty) ;;;
  if nvec P =? 0 then
    if flt f0 sty then
      Ok (bfgs_update it Hm s y sty, (Sv, Yv))
    else
      py_format "bfgs1run: sty <= 0, skipping BFGS update at iteration %d " 1 ;;;
      Ok (Hm, (Sv, Yv))
  else
    let s := vscale alpha p in
    let y := vsub g gprev in
    let SY :=
      if it + 1 <=? nvec P then (Sv ++ s, Yv ++ y)
      else (py_slice1 Sv (nvec P) ++ s, py_slice1 Yv (nvec P) ++ y) in
    let Hm' :=
      if truthy (scale P) then mscale (dot s y) (mscale (dot y y) H0m)
      else Hm in
    Ok (Hm', SY).

(** Line 147: the search direction. *)
Definition direction (st : state) : vec :=
  if nvec P =? 0 then vopp (matvec (st_H st) (st_g st))
  else vopp (hgprod (st_H st) (st_g st) (st_S st) (st_Y st)).

(** Lines 158-194: the line search from [x] along [p]. *)
Definition line_search (x p : vec) : result ls_result :=
  if strongwolfe P then
    match linesch_sw with
    | None => Raise ImportError
    | Some sw =>
        let r := sw func grad x p (wolfe1 P) (wolfe2 P) (fvalquit P)
                    (verbose P) in
        if feq (wolfe2 P) f0 then
          let increase := fmul lit_1e_8 (fadd f1 (ls_alpha r)) in
          let x' := vadd (ls_x r) (vscale increase p) in
          py_format " exact line sch simulation: slightly increasing step from %g to %g" 2 ;;;
          Ok (mk_ls (ls_alpha r) x' (func x') (grad x') (ls_fail r)
                    (ls_fevalrecline r))
        else Ok r
    end
  else
    Ok (linesch_ww func grad x p (wolfe1 P) (wolfe2 P) (fvalquit P)
                   (verbose P)).

(** Lines 199-212. *)
Definition update_cache (ngrad_ : Z) (alpha : F) (p x g : vec)
           (c : cache vec) : cache vec :=
  cache_step (flt (evaldist P) (fmul alpha (norm2 p))) ngrad_ x g c.

(** Lines 218-226: the smallest vector in the convex hull of the saved
    gradients. *)
Definition optimality (c : cache vec) (g : vec) : result (weights * vec) :=
  if 1 <? c_nG c then
    py_format "Computing shortest l2-norm vector in convex hull of cached gradients: G = %s ..." 1 ;;;
    let (w, d) := qpspecial (c_G c) (verbose P) in
    Ok (w_vec w, d)
  else Ok (w_one, g).

(** Lines 241-287: [Some info] when the run ends with code [info],
    [None] when it goes on to the update of [H]. *)
Definition check_termination (cpufinish : F) (it : Z) (f : F) (x : vec)
           (fail nG : Z) (dnorm : F) : result (option Z) :=
  if flt f (fvalquit P) then
    py_format "bfgs1run: reached target objective, quitting after %d iteration(s)" 1 ;;;
    Ok (Some 2)
  else if flt (xnormquit P) (norm2 x) then
    py_format "bfgs1run: norm(x) exceeds specified limit, quitting after %d iteration(s)" 1 ;;;
    Ok (Some 3)
  else
    ls <- (if fail =? 1 then
             if negb (truthy (quitLSfail P)) then Ok None
             else
               py_format "bfgs1run: quitting after %d iteration(s), f = %g, dnorm = %5.1e" 3 ;;;
               Ok (Some 7)
           else if fail =? -1 then
             py_format "bfgs1run: f may be unbounded below, quitting after %d iteration(s), f = %g" 2 ;;;
             Ok (Some 8)
           else Ok None) ;;
    match ls with
    | Some info => Ok (Some info)
    | None =>
        if fle dnorm (normtol P) then
          (if nG =? 1 then
             py_format "bfgs1run: gradient norm below tolerance, quiting after %d iteration(s), f = %g" 2
           else
             py_format "bfgs1run: norm of smallest vector in convex hull of gradients below tolerance, quitting after %d iteration(s), f = %g" 2) ;;;
          Ok (Some 0)
        else if flt cpufinish (time_iter it) then
          py_format "bfgs1run: cpu time limit exceeded, quitting after %d iteration(s) %d" 1 ;;;
          Ok (Some 4)
        else Ok None
    end.

Definition output_of (st : state) (it info : Z) : output :=
  mk_output (st_x st) (st_f st) (st_d st) (st_H st) it info
            (c_X (st_cache st)) (c_G (st_cache st)) (st_w st)
            (st_fevalrec st) (st_xrec st) (st_Hrec st).

(** Lines 146-337: the body of the main loop. *)
Definition iteration (H0m : mat) (ngrad_ : Z) (cpufinish : F) (it : Z)
           (st : state) : result control :=
  py_assert (forallb (fun e => fle f0 e) (eig (st_H st))) ;;;
  let p := direction st in
  let gtp := dot (st_g st) p in
  if fle f0 gtp || isnan gtp then
    py_format "bfgs1run: not descent direction, quitting after %d iteration(s), f = %g, dnorm = %5.1e, gtp=%s" 4 ;;;
    Ok (Return (output_of st it 6))
  else
    let gprev := st_g st in
    ls <- line_search (st_x st) p ;;
    let alpha := ls_alpha ls in
    let x := ls_x ls in
    let f := ls_f ls in
    let g := ls_g ls in
    let c := update_cache ngrad_ alpha p x g (st_cache st) in
    wd <- optimality c g ;;
    let dnorm := norm2 (snd wd) in
    let st1 :=
      mk_state x f g (snd wd) (st_H st) (st_S st) (st_Y st) c (fst wd) dnorm
               (st_fevalrec st ++ [ls_fevalrecline ls])
               (st_xrec st ++ [x])
               (st_Hrec st ++ [st_H st]) in
    (if 1 <? verbose P then
       py_format "bfgs1run: iter %d: nfevals = %d, step = %5.1e, f = %g, nG = %d, dnorm = %5.1e" 6
     else Ok tt) ;;;
    t <- check_termination cpufinish it f x (ls_fail ls) (c_nG c) dnorm ;;
    match t with
    | Some info => Ok (Return (output_of st1 it info))
    | None =>
        u <- hessian_step H0m it alpha p g gprev (st_H st) (st_S st)
                          (st_Y st) ;;
        Ok (Continue
              (mk_state x f g (snd wd) (fst u) (fst (snd u)) (snd (snd u)) c
                        (fst wd) dnorm (st_fevalrec st1) (st_xrec st1)
                        (st_Hrec st1)))
    end.

(** [for it in xrange(maxit)]: [n] iterations are left, the next one is
    number [it]; [it_var] is the loop variable [it], unbound ([None])
    until the first iteration binds it. *)
Inductive loop_exit : Type :=
| Returned (o : output)
| Exhausted (st : state) (it_var : option Z).

Fixpoint loop (H0m : mat) (ngrad_ : Z) (cpufinish : F) (n : nat) (it : Z)
         (it_var : option Z) (st : state) : result loop_exit :=
  match n with
  | O => Ok (Exhausted st it_var)
  | S n' =>
      r <- iteration H0m ngrad_ cpufinish it st ;;
      match r with
      | Return o => Ok (Returned o)
      | Continue st' => loop H0m ngrad_ cpufinish n' (it + 1) (Some it) st'
      end
  end.

(** Reading a local variable that may not be bound yet. *)
Definition py_local {A : Type} (v : option A) : result A :=
  match v with
  | Some a => Ok a
  | None => Raise UnboundLocalError
  end.

Definition default_ngrad (nvar : Z) : Z :=
  Z.min 100 (Z.min (2 * nvar) (nvar + 10)).

(** Lines 115-133: the values of the locals when the loop is reached. *)
Definition initial_H (x0 : vec) : mat :=
  match H0 P with
  | None => eye (length x0)
  | Some h => h
  end.

Definition cache_size (x0 : vec) : Z :=
  match ngrad P with
  | None => default_ngrad (Z.of_nat (length x0))
  | Some n => n
  end.

Definition cpufinish : F := fadd time_start (cpumax P).

Definition initial_state (x0 : vec) : state :=
  let x := x0 in
  let f := func x in
  let g := grad x in
  mk_state x f g g (initial_H x0) [] [] (cache_init x g) w_one (norm2 g)
           [] [] [].

Definition main_loop (x0 : vec) : result loop_exit :=
  loop (initial_H x0) (cache_size x0) cpufinish (Z.to_nat (maxit P)) 0 None
       (initial_state x0).

Definition bfgs1run (x0 : vec) : result output :=
  let st0 := initial_state x0 in
  if isnan (st_f st0) || isinf (st_f st0) then
    Ok (output_of st0 0 5)
  else if any_nan (st_g st0) || any_inf (st_g st0) then
    Ok (output_of st0 0 5)
  else
    r <- main_loop x0 ;;
    match r with
    | Returned o => Ok o
    | Exhausted st it_var =>
        py_format "bfgs1run: %d iteration(s) reached, f = %g, dnorm = %5.1e" 3 ;;;
        it <- py_local it_var ;;
        Ok (output_of st it 1)
    end.

(** The iterations a run of the loop begins: [visits n it st it' st']
    when the loop that has [n] iterations left and is about to begin
    iteration [it] in state [st] begins iteration [it'] in state [st']. *)
Inductive visits (H0m : mat) (ngrad_ : Z) (cpuf : F)
  : nat -> Z -> state -> Z -> state -> Prop :=
| visits_here : forall n it st,
    visits H0m ngrad_ cpuf (S n) it st it st
| visits_later : forall n it st st1 it' st',
    iteration H0m ngrad_ cpuf it st = Ok (Continue st1) ->
    visits H0m ngrad_ cpuf n (it + 1) st1 it' st' ->
    visits H0m ngrad_ cpuf (S n) it st it' st'.

(** The line-search step of an iteration begun in [st], as the cache sees
    it: the outcome of the test [alpha * norm(p) > evaldist] of line 199,
    and the new point and gradient. *)
Definition search_step (st : state) (ls : ls_result) : bool * (vec * vec) :=
  (flt (evaldist P) (fmul (ls_alpha ls) (norm2 (direction st))),
   (ls_x ls, ls_g ls)).

(** The cache [(X, G)] an iteration leaves: in the state it goes on with,
    or in the tuple it returns. *)
Definition control_cache (c : control) : list vec * list vec :=
  match c with
  | Continue st => (c_X (st_cache st), c_G (st_cache st))
  | Return o => (o_X o, o_G o)
  end.

(** [run_steps it st steps it' st']: the loop goes from the head of
    iteration [it] in state [st] to the head of iteration [it'] in state
    [st'], through the line-search steps [steps], oldest first. *)
Inductive run_steps (H0m : mat) (ngrad_ : Z) (cpuf : F)
  : Z -> state -> list (bool * (vec * vec)) -> Z -> state -> Prop :=
| run_steps_nil : forall it st,
    run_steps H0m ngrad_ cpuf it st [] it st
| run_steps_cons : forall it st ls st1 steps it' st',
    line_search (st_x st) (direction st) = Ok ls ->
    iteration H0m ngrad_ cpuf it st = Ok (Continue st1) ->
    run_steps H0m ngrad_ cpuf (it + 1) st1 steps it' st' ->
    run_steps H0m ngrad_ cpuf it st (search_step st ls :: steps) it' st'.

(** The assertion of line 146 on a state. *)
Definition eig_nonneg (st : state) : bool :=
  forallb (fun e => fle f0 e) (eig (st_H st)).

(** A state, an output and the outcome of an iteration or of the loop with
    the three histories [fevalrec], [xrec], [Hrec] emptied. *)
Definition forget_state (st : state) : state :=
  mk_state (st_x st) (st_f st) (st_g st) (st_d st) (st_H st) (st_S st)
           (st_Y st) (st_cache st) (st_w st) (st_dnorm st) [] [] [].

Definition forget_output (o : output) : output :=
  mk_output (o_x o) (o_f o) (o_d o) (o_H o) (o_iter o) (o_info o) (o_X o)
            (o_G o) (o_w o) [] [] [].

Definition forget_control (c : control) : control :=
  match c with
  | Continue st => Continue (forget_state st)
  | Return o => Return (forget_output o)
  end.

Definition forget_exit (e : loop_exit) : loop_exit :=
  match e with
  | Returned o => Returned (forget_output o)
  | Exhausted st it_var => Exhausted (forget_state st) it_var
  end.

Definition result_map {A B : Type} (f : A -> B) (r : result A) : result B :=
  match r with
  | Ok a => Ok (f a)
  | Raise e => Raise e
  end.
End Bfgs1run.

Arguments ls_result F : clear implicits.
Arguments weights F : clear implicits.
Arguments params F : clear implicits.
Arguments output F : clear implicits.
Arguments state F : clear implicits.
Arguments control F : clear implicits.
Arguments loop_exit F : clear implicits.
Arguments linesearch F : clear implicits.

(** ** hanso *)

Section Hanso.
Context {F : Type} {SF : Scalar F}.
Local Abbreviation vec := (list F).
Local Abbreviation mat := (list (list F)).

(** What [bfgs] returns, one entry per starting point:
    [x, f, d, H, it, info, X, G, w]; [x] and [d] are kept as the lists of
    their columns. *)
Record bfgs_result : Type := mk_bfgs {
  b_x : list vec;
  b_f : list F;
  b_d : list vec;
  b_H : list mat;
  b_it : list Z;
  b_info : list Z;
  b_X : list (list vec);
  b_G : list (list vec);
  b_w : list (weights F)
}.

(** The dict [loc] of [postprocess], read at ['dnorm'] and ['evaldist']. *)
Record loc_dict : Type := mk_loc {
  loc_dnorm : F;
  loc_evaldist : F
}.

(** The returned tuple [x, f, loc, X, G, w, H]. *)
Record hanso_output : Type := mk_hanso {
  h_x : vec;
  h_f : F;
  h_loc : loc_dict;
  h_X : list vec;
  h_G : list vec;
  h_w : weights F;
  h_H : mat
}.

(** [bfgs(func, grad, fvalquit, normtol, cpumax, verbose, **kwargs)];
    [func], [grad] and [kwargs] are fixed. *)
Variable bfgs : F -> F -> F -> Z -> bfgs_result.
(** [postprocess(x, nan, dnorm, X, G, w, verbose)]; the constant second
    argument is left out. *)
Variable postprocess :
  vec -> F -> list vec -> list vec -> weights F -> Z ->
  loc_dict * (list vec * (list vec * weights F)).
(** [time.time()] at line 137 and at line 167. *)
Variable time_start : F.
Variable time_after : F.

(** [np.argmin]: the first position of the least entry, a NaN counting as
    least; [best] is the least entry so far, found at [bi]. *)
Fixpoint argmin_from (bi : nat) (best : F) (i : nat) (l : list F) : nat :=
  match l with
  | [] => bi
  | a :: l' =>
      if isnan best then bi
      else if fle best a then argmin_from bi best (S i) l'
      else argmin_from i a (S i) l'
  end.

Definition argmin (l : list F) : result nat :=
  match l with
  | [] => Raise ValueError
  | a :: l' => Ok (argmin_from 0 a 1 l')
  end.

(** [l[i]] *)
Definition py_index {A : Type} (l : list A) (i : nat) : result A :=
  match nth_error l i with
  | Some a => Ok a
  | None => Raise IndexError
  end.

Definition best_point_msg : result unit :=
  py_format "hanso: best point found has f = %g with local optimality measure: dnorm = %5.1e, evaldist = %5.1e" 3.

(** [None] is the value of a call that falls off the end of the body. *)
Definition hanso (sampgrad : bool) (normtol : F) (verbose : Z)
           (fvalquit cpumax : F) : result (option hanso_output) :=
  let cpufinish := fadd time_start cpumax in
  let r := bfgs fvalquit normtol cpumax verbose in
  py_assert (length (b_f r) =? length (b_x r))%nat ;;;
  indx <- argmin (b_f r) ;;
  f <- py_index (b_f r) indx ;;
  x <- py_index (b_x r) indx ;;
  d <- py_index (b_d r) indx ;;
  Hm <- py_index (b_H r) indx ;;
  X <- py_index (b_X r) indx ;;
  G <- py_index (b_G r) indx ;;
  w <- py_index (b_w r) indx ;;
  let dnorm := norm2 d in
  let pp := postprocess x dnorm X G w verbose in
  let loc := fst pp in
  let X := fst (snd pp) in
  let G := fst (snd (snd pp)) in
  let w := snd (snd (snd pp)) in
  let out := Some (mk_hanso x f loc X G w Hm) in
  if isnan f || isinf f then
    Ok out
  else if flt cpufinish time_after then
    best_point_msg ;;; Ok out
  else if flt f fvalquit then
    best_point_msg ;;; Ok out
  else if flt dnorm normtol then
    best_point_msg ;;; Ok out
  else if negb sampgrad then
    Ok out
  else
    if sampgrad then Raise NotImplementedError
    else Ok None.
End Hanso.

Arguments bfgs_result F : clear implicits.
Arguments loc_dict F : clear implicits.
Arguments hanso_output F : clear implicits.

(** ** Concrete inputs

    Objectives and test doubles for the collaborators, over binary64, on
    which the model is run. *)

Module Demo.
Local Open Scope float_scope.

(** [f(x) = sum_i x_i^2] *)
Definition quad (x : list float) : float := dot x x.
Definition grad_quad (x : list float) : list float := vscale 2 x.

(** The double well [f(x) = sum_i (x_i^4 - 2 x_i^2)], not convex. *)
Definition well (x : list float) : float :=
  fold_right (fun a acc => (a * a * a * a - 2 * (a * a)) + acc) 0 x.
Definition grad_well (x : list float) : list float :=
  map (fun a => 4 * (a * a * a) - 4 * a) x.

(** An objective that is NaN everywhere. *)
Definition bad (x : list float) : float := nan.

(** A line search that takes the step [alpha] and reports [fail]. *)
Definition fixed_step (alpha : float) (fail : Z) : linesearch float :=
  fun func grad x p _ _ _ _ =>
    let x' := vadd x (vscale alpha p) in
    mk_ls alpha x' (func x') (grad x') fail [func x'].

(** A stand-in for [qpspecial]: all the weight on the latest gradient. *)
Definition qp_latest (G : list (list float)) (_ : Z)
  : list float * list float :=
  (1 :: map (fun _ => 0) (tl G), hd [] G).

Definition hg_dense (Hm : list (list float)) (g : list float)
           (_ _ : list float) : list float := matvec Hm g.

(** The eigenvalues of a diagonal matrix. *)
Definition eig_diag (Hm : list (list float)) : list float :=
  map (fun i => nth i (nth i Hm []) 0) (seq 0 (length Hm)).

(** The default values of the keyword arguments of [bfgs1run]. *)
Definition defaults : params float :=
  mk_params 100 0 1 1e-4 neg_infinity infinity infinity false 0 0.5 1 None
            1e-4 None 1.

Definition with_maxit (n : Z) (P : params float) : params float :=
  mk_params n (nvec P) (verbose P) (normtol P) (fvalquit P) (xnormquit P)
            (cpumax P) (strongwolfe P) (wolfe1 P) (wolfe2 P) (quitLSfail P)
            (ngrad P) (evaldist P) (H0 P) (scale P).

Definition with_quitLSfail (q : Z) (P : params float) : params float :=
  mk_params (maxit P) (nvec P) (verbose P) (normtol P) (fvalquit P)
            (xnormquit P) (cpumax P) (strongwolfe P) (wolfe1 P) (wolfe2 P)
            q (ngrad P) (evaldist P) (H0 P) (scale P).

Definition with_cpumax (c : float) (P : params float) : params float :=
  mk_params (maxit P) (nvec P) (verbose P) (normtol P) (fvalquit P)
            (xnormquit P) c (strongwolfe P) (wolfe1 P) (wolfe2 P)
            (quitLSfail P) (ngrad P) (evaldist P) (H0 P) (scale P).

Definition with_ngrad (k : Z) (P : params float) : params float :=
mk_params (maxit P) (nvec P) (verbose P) (normtol P) (fvalquit P)
          (xnormquit P) (cpumax P) (strongwolfe P) (wolfe1 P) (wolfe2 P)
          (quitLSfail P) (Some k) (evaldist P) (H0 P) (scale P).

(** A BFGS phase with one starting point [x], where the value is [f] and
    the gradient [d]. *)
Definition bfgs_one (x : list float) (f : float) (d : list float)
  : float -> float -> float -> Z -> bfgs_result float :=
fun _ _ _ _ => mk_bfgs [x] [f] [d] [[[1]]] [0%Z] [1%Z] [[x]] [[d]] [w_one].

Definition post_id (x : list float) (dnorm : float)
           (X G : list (list float)) (w : weights float) (_ : Z)
  : loc_dict float * (list (list float) * (list (list float) * weights float)) :=
(mk_loc dnorm 1e-4, (X, (G, w))).

Definition with_strongwolfe (b : bool) (P : params float) : params float :=
mk_params (maxit P) (nvec P) (verbose P) (normtol P) (fvalquit P)
          (xnormquit P) (cpumax P) b (wolfe1 P) (wolfe2 P)
          (quitLSfail P) (ngrad P) (evaldist P) (H0 P) (scale P).

(** The defaults with the target value [fvalquit = 0.5] and one
    iteration, and with [nvec = 2] and three iterations. *)
Definition with_target : params float :=
mk_params 1 0 1 1e-4 0.5 infinity infinity false 0 0.5 1 None 1e-4 None 1.

Definition limited : params float :=
mk_params 3 2 1 1e-4 neg_infinity infinity infinity false 0 0.5 1 None 1e-4
          None 1.

(** The eigenvalues of a symmetric 2 by 2 matrix [[a, b], [b, d]]:
    [(a + d)/2 -+ sqrt(((a - d)/2)^2 + b^2)]. *)
Definition eig_sym2 (Hm : list (list float)) : list float :=
  let a := nth 0 (nth 0 Hm []) 0 in
  let b := nth 1 (nth 0 Hm []) 0 in
  let d := nth 1 (nth 1 Hm []) 0 in
  let m := (a + d) / 2 in
  let r := PrimFloat.sqrt (((a - d) / 2) * ((a - d) / 2) + b * b) in
  [m - r; m + r].

(** Three iterations in two dimensions from the symmetric start
    [H0 = [[2, 1], [1, 2]]]. *)
Definition planar : params float :=
mk_params 3 0 1 1e-4 neg_infinity infinity infinity false 0 0.5 1 None 1e-4
          (Some [[2; 1]; [1; 2]]) 1.

(** The defaults with [evaldist = 10]: no step of the quadratic is far. *)
Definition near : params float :=
mk_params 100 0 1 1e-4 neg_infinity infinity infinity false 0 0.5 1 None 10
          None 1.

(** [bfgs1run] on a smooth objective with a clock that stands still at
    [now]. *)
Definition run (func : list float -> float)
           (grad : list float -> list float) (ls : linesearch float)
           (now : float) (P : params float) (x0 : list float)
  : result (output float) :=
  bfgs1run func grad ls None qp_latest hg_dense eig_diag 0 (fun _ => now)
           P x0.

(** The first iteration on the double well from [x0 = 0.5], with a line
    search that stops short at [alpha = 1/32] and reports that the Wolfe
    conditions do not hold; [quitLSfail = 0] lets the run go on. *)
Definition well_params : params float := with_quitLSfail 0 defaults.
Definition well_ls : linesearch float := fixed_step 0.03125 1.
Definition well_state : state float :=
  initial_state well grad_well well_params [0.5].
Definition well_p : list float := direction hg_dense well_params well_state.
Definition well_step : ls_result float :=
  well_ls well grad_well [0.5] well_p 0 0.5 neg_infinity 1%Z.

(** [hanso] on a BFGS phase with the single result [(x, f, d) = ([1], f,
    [1])], default arguments and a clock that stands still. *)
Definition hanso_one (f : float) (sampgrad : bool)
  : result (option (hanso_output float)) :=
  hanso (bfgs_one [1] f [1]) post_id 0 0 sampgrad 1e-6 2 neg_infinity
        infinity.
End Demo.

(** Over the reals there are no infinities: the bounds that default to
    them are large numbers here. *)
Definition real_params : params R :=
  mk_params 100 0 1 (1 / 10000)%R (-1000000)%R 1000000%R 1000000%R false
            0%R (1 / 2)%R 1 None (1 / 10000)%R None 1.


(** A constant objective over the reals, with test doubles for the
    collaborators: every point is stationary. *)
Definition real_run (x0 : list R) : result (output R) :=
  bfgs1run (fun _ => 0%R) (fun x => map (fun _ => 0%R) x)
           (fun _ _ x _ _ _ _ _ => mk_ls 0%R x 0%R (map (fun _ => 0%R) x) 0 [])
           None (fun G _ => ([], hd [] G)) (fun Hm g _ _ => matvec Hm g)
           (fun _ => []) 0%R (fun _ => 0%R) real_params x0.

(** A BFGS phase over the reals with two starting points. *)
Definition real_bfgs : R -> R -> R -> Z -> bfgs_result R :=
  fun _ _ _ _ =>
    mk_bfgs [[1%R]; [2%R]] [3%R; 2%R] [[1%R]; [1%R]]
            [[[1%R]]; [[1%R]]] [0; 0] [1; 1] [[[1%R]]; [[2%R]]]
            [[[1%R]]; [[1%R]]] [w_one; w_one].

Definition real_post (x : list R) (dnorm : R) (X G : list (list R))
           (w : weights R) (_ : Z)
  : loc_dict R * (list (list R) * (list (list R) * weights R)) :=
  (mk_loc dnorm (1 / 10000)%R, (X, (G, w))).

(** * Properties *)

(** ** The run: start, loop and end *)

Section RunProperties.
Context {F : Type} {SF : Scalar F}.
Local Abbreviation vec := (list F).
Local Abbreviation mat := (list (list F)).

Variable func : vec -> F.
Variable grad : vec -> vec.
Variable linesch_ww : linesearch F.
Variable linesch_sw : option (linesearch F).
Variable qpspecial : list vec -> Z -> vec * vec.
Variable hgprod : mat -> vec -> list F -> list F -> vec.
Variable eig : mat -> list F.
Variable time_start : F.
Variable time_iter : Z -> F.
Variable P : params F.

Local Abbreviation bfgs1run' :=
  (bfgs1run func grad linesch_ww linesch_sw qpspecial hgprod eig
            time_start time_iter P).
Local Abbreviation main_loop' :=
  (main_loop func grad linesch_ww linesch_sw qpspecial hgprod eig
             time_start time_iter P).
Local Abbreviation iteration' :=
  (iteration func grad linesch_ww linesch_sw qpspecial hgprod eig
             time_iter P).
Local Abbreviation loop' :=
  (loop func grad linesch_ww linesch_sw qpspecial hgprod eig time_iter P).
Local Abbreviation visits' :=
  (visits func grad linesch_ww linesch_sw qpspecial hgprod eig time_iter P).
Local Abbreviation initial_state' := (initial_state func grad P).

Lemma bind_ok (A B : Type) (m : result A) (k : A -> result B) (b : B) :
  bind m k = Ok b -> exists a, m = Ok a /\ k a = Ok b.
Proof.
  destruct m as [a | e]; simpl; intros E; [eauto | discriminate].
Qed.

Lemma py_assert_ok (b : bool) (u : unit) : py_assert b = Ok u -> b = true.
Proof. destruct b; simpl; [reflexivity | discriminate]. Qed.

(** C4. When [func] or [grad] is NaN or infinite at [x0], the run returns
    with code 5 (f or g is inf or nan at initial point), iteration count 0
    and the point [x0]. *)
Theorem bfgs1run_invalid_initial_point (x0 : vec) :
  isnan (func x0) || isinf (func x0)
    || any_nan (grad x0) || any_inf (grad x0) = true ->
  exists o, bfgs1run' x0 = Ok o
            /\ o_info o = 5 /\ o_iter o = 0 /\ o_x o = x0.
Proof.
  intros Hbad. unfold bfgs1run. cbn [initial_state st_f st_g].
  destruct (isnan (func x0) || isinf (func x0)) eqn:Ef.
  - eexists; split; [reflexivity | cbn; auto].
  - rewrite <- orb_assoc in Hbad. cbn [orb] in Hbad. rewrite Hbad.
    eexists; split; [reflexivity | cbn; auto].
Qed.

(** C2. With [maxit = 0] and a finite start the loop body never runs, so
    the loop variable [it] is never bound, and reading it in the final
    [return] raises [UnboundLocalError]: the run does not return code 1. *)
Theorem bfgs1run_maxit_zero_unbound (x0 : vec) :
  maxit P = 0 ->
  isnan (func x0) || isinf (func x0) = false ->
  any_nan (grad x0) || any_inf (grad x0) = false ->
  bfgs1run' x0 = Raise UnboundLocalError.
Proof.
  intros Hm Hf Hg. unfold bfgs1run, main_loop.
  cbn [initial_state st_f st_g]. rewrite Hf, Hg, Hm. reflexivity.
Qed.

Lemma hessian_step_asserts (H0m : mat) (it : Z) (alpha : F)
      (p g gprev : vec) (Hm : mat) (Sv Yv : list F) :
  flt f0 (dot (vscale alpha p) (vsub g gprev)) = false ->
  hessian_step P H0m it alpha p g gprev Hm Sv Yv = Raise AssertionError.
Proof. intros E. unfold hessian_step. rewrite E. reflexivity. Qed.

Lemma verbose_message_ok (b : bool) :
  (if b then
     py_format "bfgs1run: iter %d: nfevals = %d, step = %5.1e, f = %g, nG = %d, dnorm = %5.1e" 6
   else Ok tt) = Ok tt.
Proof. destruct b; reflexivity. Qed.

(** C1. An iteration that passes the termination checks and then finds
    a curvature [sty] that is not positive does not skip the update and
    go on: the [assert sty > 0] of line 291 raises [AssertionError]
    before the branch that would skip is reached (in either memory
    mode). *)
Theorem iteration_nonpositive_curvature_aborts
        (H0m : mat) (ngrad_ : Z) (cpuf : F) (it : Z) (st : state F)
        (ls : ls_result F) (wd : weights F * vec) :
  let p := direction hgprod P st in
  let c := update_cache P ngrad_ (ls_alpha ls) p (ls_x ls) (ls_g ls)
                        (st_cache st) in
  eig_nonneg eig st = true ->
  fle f0 (dot (st_g st) p) || isnan (dot (st_g st) p) = false ->
  line_search func grad linesch_ww linesch_sw P (st_x st) p = Ok ls ->
  optimality qpspecial P c (ls_g ls) = Ok wd ->
  check_termination time_iter P cpuf it (ls_f ls) (ls_x ls) (ls_fail ls)
                    (c_nG c) (norm2 (snd wd)) = Ok None ->
  flt f0 (dot (vscale (ls_alpha ls) p) (vsub (ls_g ls) (st_g st))) = false ->
  iteration' H0m ngrad_ cpuf it st = Raise AssertionError.
Proof.
  intros p c He Hd Hls Hopt Hterm Hsty. unfold iteration.
  unfold eig_nonneg in He. rewrite He. cbn [py_assert bind].
  fold p. rewrite Hd, Hls. cbn [bind]. fold c. rewrite Hopt. cbn [bind].
  rewrite verbose_message_ok. cbn [bind]. rewrite Hterm. cbn [bind].
  rewrite hessian_step_asserts by exact Hsty. reflexivity.
Qed.

(** C3. When none of the checks (a) to (e) holds and the clock is past
    [cpufinish], the run does not return code 4: building the log
    message of line 284, which has two conversion specifiers and one
    argument, raises [TypeError]. *)
Theorem check_termination_time_limit_raises
        (cpuf : F) (it : Z) (f : F) (x : vec) (fail nG : Z) (dnorm : F) :
  flt f (fvalquit P) = false ->
  flt (xnormquit P) (norm2 x) = false ->
  (fail =? 1) && truthy (quitLSfail P) = false ->
  (fail =? -1) = false ->
  fle dnorm (normtol P) = false ->
  flt cpuf (time_iter it) = true ->
  check_termination time_iter P cpuf it f x fail nG dnorm = Raise TypeError.
Proof.
  intros Ha Hb Hc Hd He Hf. unfold check_termination.
  rewrite Ha, Hb.
  destruct (fail =? 1) eqn:E1.
  - cbn [andb] in Hc. rewrite Hc. cbn [negb bind]. rewrite He, Hf.
    reflexivity.
  - rewrite Hd. cbn [bind]. rewrite He, Hf. reflexivity.
Qed.

(** C8. No argument of [bfgs1run] switches the recording off: every
    iteration that goes on to the next one has appended the new point,
    the line-search trace and the Hessian it started from to the three
    histories, whatever the parameters are. *)
Theorem iteration_always_records
        (H0m : mat) (ngrad_ : Z) (cpuf : F) (it : Z) (st st' : state F) :
  iteration' H0m ngrad_ cpuf it st = Ok (Continue st') ->
  st_xrec st' = st_xrec st ++ [st_x st']
  /\ st_Hrec st' = st_Hrec st ++ [st_H st]
  /\ exists tr, st_fevalrec st' = st_fevalrec st ++ [tr].
Proof.
  unfold iteration. intros E.
  apply bind_ok in E. destruct E as [u [_ E]].
  destruct (fle f0 _ || isnan _).
  - apply bind_ok in E. destruct E as [? [_ E]]. discriminate.
  - apply bind_ok in E. destruct E as [ls [_ E]].
    apply bind_ok in E. destruct E as [wd [_ E]].
    apply bind_ok in E. destruct E as [? [_ E]].
    apply bind_ok in E. destruct E as [t [_ E]].
    destruct t as [info |]; [discriminate |].
    apply bind_ok in E. destruct E as [up [_ E]].
    injection E as <-. cbn. repeat split. eexists. reflexivity.
Qed.

Lemma loop_visits (H0m : mat) (ngrad_ : Z) (cpuf : F) (n : nat) (it : Z)
      (st : state F) (it' : Z) (st' : state F) :
  visits' H0m ngrad_ cpuf n it st it' st' ->
  forall (iv : option Z) (r : loop_exit F),
    loop' H0m ngrad_ cpuf n it iv st = Ok r ->
    eig_nonneg eig st' = true.
Proof.
  induction 1 as [n it st | n it st st1 it' st' Hstep Hv IH];
    intros iv r E; cbn [loop] in E.
  - apply bind_ok in E. destruct E as [c [E _]].
    unfold iteration in E. apply bind_ok in E. destruct E as [u [E _]].
    apply py_assert_ok in E. exact E.
  - rewrite Hstep in E. cbn [bind] in E. eapply IH. exact E.
Qed.

(** C10. Every iteration begins with the assertion that the eigenvalues
    of [H] are nonnegative: an iteration entered with an eigenvalue that
    is not raises [AssertionError], and a run that returns has begun each
    of its iterations with all eigenvalues of [H] nonnegative. *)
Theorem eig_assertion_guards_iterations :
  (forall (H0m : mat) (ngrad_ : Z) (cpuf : F) (it : Z) (st : state F),
      eig_nonneg eig st = false ->
      iteration' H0m ngrad_ cpuf it st = Raise AssertionError)
  /\ (forall (x0 : vec) (o : output F) (it : Z) (st : state F),
         bfgs1run' x0 = Ok o ->
         isnan (func x0) || isinf (func x0) = false ->
         any_nan (grad x0) || any_inf (grad x0) = false ->
         visits' (initial_H P x0) (cache_size P x0)
                 (cpufinish time_start P) (Z.to_nat (maxit P)) 0
                 (initial_state' x0) it st ->
         eig_nonneg eig st = true).
Proof.
  split.
  - intros H0m ngrad_ cpuf it st E. unfold iteration.
    unfold eig_nonneg in E. rewrite E. reflexivity.
  - intros x0 o it st Hrun Hf Hg Hv. unfold bfgs1run in Hrun.
    cbn [initial_state st_f st_g] in Hrun. rewrite Hf, Hg in Hrun.
    apply bind_ok in Hrun. destruct Hrun as [r [Hloop _]].
    unfold main_loop in Hloop. eapply loop_visits; eassumption.
Qed.

(** The termination checks of an iteration, flattened: the codes are
    given in the order target value (2), norm of the iterate (3), failed
    line search with [quitLSfail] set (7), unbounded below (8), tolerance
    met (0); the time limit, last, raises instead of giving code 4. *)
Theorem check_termination_priority
        (cpuf : F) (it : Z) (f : F) (x : vec) (fail nG : Z) (dnorm : F) :
  check_termination time_iter P cpuf it f x fail nG dnorm
  = if flt f (fvalquit P) then Ok (Some 2)
    else if flt (xnormquit P) (norm2 x) then Ok (Some 3)
    else if (fail =? 1) && truthy (quitLSfail P) then Ok (Some 7)
    else if fail =? -1 then Ok (Some 8)
    else if fle dnorm (normtol P) then Ok (Some 0)
    else if flt cpuf (time_iter it) then Raise TypeError
    else Ok None.
Proof.
  unfold check_termination.
  destruct (flt f (fvalquit P)); [reflexivity |].
  destruct (flt (xnormquit P) (norm2 x)); [reflexivity |].
  destruct (fail =? 1) eqn:E1.
  - apply Z.eqb_eq in E1. subst fail. cbn [andb Z.eqb].
    destruct (truthy (quitLSfail P)); cbn [negb bind]; [reflexivity |].
    destruct (fle dnorm (normtol P)); [destruct (nG =? 1); reflexivity |].
    destruct (flt cpuf (time_iter it)); reflexivity.
  - cbn [andb]. destruct (fail =? -1); [reflexivity |]. cbn [bind].
    destruct (fle dnorm (normtol P)); [destruct (nG =? 1); reflexivity |].
    destruct (flt cpuf (time_iter it)); reflexivity.
Qed.

Lemma iteration_forget (H0m : mat) (ngrad_ : Z) (cpuf : F) (it : Z)
      (st : state F) :
  result_map (@forget_control F) (iteration' H0m ngrad_ cpuf it st)
  = result_map (@forget_control F)
               (iteration' H0m ngrad_ cpuf it (forget_state st)).
Proof.
  destruct st as [x f g d Hm Sv Yv c w dn fr xr Hr].
  unfold iteration, forget_state, direction, output_of.
  cbn [st_x st_f st_g st_d st_H st_S st_Y st_cache st_w st_dnorm
       st_fevalrec st_xrec st_Hrec].
  destruct (py_assert _); cbn [bind result_map]; [| reflexivity].
  destruct (fle f0 _ || isnan _).
  - destruct (py_format _ _); reflexivity.
  - destruct (line_search _ _ _ _ _ _ _); cbn [bind result_map];
      [| reflexivity].
    destruct (optimality _ _ _ _); cbn [bind result_map]; [| reflexivity].
    destruct (if 1 <? verbose P then _ else _); cbn [bind result_map];
      [| reflexivity].
    destruct (check_termination _ _ _ _ _ _ _ _ _) as [[info |] | e];
      cbn [bind result_map]; try reflexivity.
    destruct (hessian_step _ _ _ _ _ _ _ _ _ _); reflexivity.
Qed.

(** The histories do not steer the run: from any state, the loop run with
    the histories emptied raises the same exception or ends the same way,
    with the same values of everything but the histories. *)
Theorem loop_forget (H0m : mat) (ngrad_ : Z) (cpuf : F) (n : nat) :
  forall (it : Z) (iv : option Z) (st : state F),
    result_map (@forget_exit F) (loop' H0m ngrad_ cpuf n it iv st)
    = result_map (@forget_exit F)
                 (loop' H0m ngrad_ cpuf n it iv (forget_state st)).
Proof.
  induction n as [| n IH]; intros it iv st; cbn [loop]; [reflexivity |].
  assert (E := iteration_forget H0m ngrad_ cpuf it st).
  destruct (iteration' H0m ngrad_ cpuf it st) as [[st1 | o1] | e1];
    destruct (iteration' H0m ngrad_ cpuf it (forget_state st))
      as [[st2 | o2] | e2];
    cbn [result_map forget_control] in E; try discriminate;
    cbn [bind result_map].
  - rewrite (IH _ _ st1), (IH _ _ st2).
    replace (forget_state st2) with (forget_state st1) by congruence.
    reflexivity.
  - cbn [forget_exit]. congruence.
  - congruence.
Qed.
End RunProperties.

(** ** Matrices as lists of rows *)

Section LinAlgFacts.
Context {F : Type} {SF : Scalar F}.
Local Abbreviation vec := (list F).
Local Abbreviation mat := (list (list F)).

Lemma nth_map_in (A B : Type) (f : A -> B) (l : list A) (i : nat)
      (d : B) (d' : A) :
  (i < length l)%nat -> nth i (map f l) d = f (nth i l d').
Proof.
  intros Hi. rewrite (nth_indep (map f l) d (f d')).
  - apply map_nth.
  - rewrite length_map. exact Hi.
Qed.

Lemma length_map2 (op : F -> F -> F) (u v : vec) :
  length (map2 op u v) = Nat.min (length u) (length v).
Proof.
  revert v. induction u as [| a u IH]; intros [| b v]; simpl; auto.
Qed.

Lemma nth_map2 (op : F -> F -> F) (u v : vec) (i : nat) (d : F) :
  (i < length u)%nat -> (i < length v)%nat ->
  nth i (map2 op u v) d = op (nth i u d) (nth i v d).
Proof.
  revert v i. induction u as [| a u IH]; intros [| b v] [| i]; simpl;
    intros Hu Hv; try lia; auto.
  apply IH; lia.
Qed.

Lemma length_mmap2 (op : F -> F -> F) (A B : mat) :
  length (mmap2 op A B) = Nat.min (length A) (length B).
Proof.
  revert B. induction A as [| r A IH]; intros [| q B]; simpl; auto.
Qed.

Lemma nth_mmap2 (op : F -> F -> F) (A B : mat) (i : nat) :
  (i < length A)%nat -> (i < length B)%nat ->
  nth i (mmap2 op A B) [] = map2 op (nth i A []) (nth i B []).
Proof.
  revert B i. induction A as [| r A IH]; intros [| q B] [| i]; simpl;
    intros Hu Hv; try lia; auto.
  apply IH; lia.
Qed.

Lemma square_row (n : nat) (M : mat) (i : nat) :
  square n M -> (i < n)%nat -> length (nth i M []) = n.
Proof.
  intros [Hl Hr] Hi. rewrite Forall_forall in Hr. apply Hr.
  apply nth_In. lia.
Qed.

Lemma square_intro (n : nat) (M : mat) :
  length M = n ->
  (forall i, (i < n)%nat -> length (nth i M []) = n) ->
  square n M.
Proof.
  intros Hl Hr. split; [exact Hl |]. apply Forall_forall. intros r Hin.
  destruct (In_nth M r [] Hin) as [i [Hi <-]]. apply Hr. lia.
Qed.

(** Two [n] by [n] matrices with the same entries are equal. *)
Lemma square_ext (n : nat) (A B : mat) :
  square n A -> square n B ->
  (forall i j, (i < n)%nat -> (j < n)%nat -> entry A i j = entry B i j) ->
  A = B.
Proof.
  intros HA HB He. apply (nth_ext A B [] []).
  - destruct HA, HB. congruence.
  - intros i Hi. destruct HA as [HlA HrA]. rewrite HlA in Hi.
    apply (nth_ext _ _ f0 f0).
    + rewrite (square_row (conj HlA HrA) Hi), (square_row HB Hi).
      reflexivity.
    + intros j Hj. rewrite (square_row (conj HlA HrA) Hi) in Hj.
      apply He; assumption.
Qed.

Lemma square_mmap2 (op : F -> F -> F) (n : nat) (A B : mat) :
  square n A -> square n B -> square n (mmap2 op A B).
Proof.
  intros HA HB. apply square_intro.
  - rewrite length_mmap2. destruct HA, HB. lia.
  - intros i Hi. rewrite nth_mmap2 by (destruct HA, HB; lia).
    rewrite length_map2, (square_row HA Hi), (square_row HB Hi). lia.
Qed.

Lemma entry_mmap2 (op : F -> F -> F) (n : nat) (A B : mat) (i j : nat) :
  square n A -> square n B -> (i < n)%nat -> (j < n)%nat ->
  entry (mmap2 op A B) i j = op (entry A i j) (entry B i j).
Proof.
  intros HA HB Hi Hj. unfold entry.
  rewrite nth_mmap2 by (destruct HA, HB; lia).
  apply nth_map2.
  - rewrite (square_row HA Hi). exact Hj.
  - rewrite (square_row HB Hi). exact Hj.
Qed.

Lemma square_mscale (c : F) (n : nat) (M : mat) :
  square n M -> square n (mscale c M).
Proof.
  intros HM. unfold mscale. apply square_intro.
  - rewrite length_map. apply HM.
  - intros i Hi. rewrite (nth_map_in _ _ _ []) by (destruct HM; lia).
    rewrite length_map. apply (square_row HM Hi).
Qed.

Lemma entry_mscale (c : F) (n : nat) (M : mat) (i j : nat) :
  square n M -> (i < n)%nat -> (j < n)%nat ->
  entry (mscale c M) i j = fmul c (entry M i j).
Proof.
  intros HM Hi Hj. unfold entry, mscale.
  rewrite (nth_map_in _ _ _ []) by (destruct HM; lia).
  apply nth_map_in. rewrite (square_row HM Hi). exact Hj.
Qed.

Lemma square_outer (u v : vec) (n : nat) :
  length u = n -> length v = n -> square n (outer u v).
Proof.
  intros Hu Hv. unfold outer. apply square_intro.
  - rewrite length_map. exact Hu.
  - intros i Hi. rewrite (nth_map_in _ _ _ f0) by lia.
    rewrite length_map. exact Hv.
Qed.

Lemma entry_outer (u v : vec) (i j : nat) :
  (i < length u)%nat -> (j < length v)%nat ->
  entry (outer u v) i j = fmul (nth i u f0) (nth j v f0).
Proof.
  intros Hi Hj. unfold entry, outer.
  rewrite (nth_map_in _ _ _ f0) by lia. apply nth_map_in. exact Hj.
Qed.

Lemma square_transpose (n : nat) (M : mat) :
  square n M -> square n (transpose M).
Proof.
  intros HM. unfold transpose. destruct HM as [Hl Hr].
  assert (Hc : length (hd [] M) = n).
  { destruct M as [| r M]; simpl in *; [exact Hl |].
    inversion Hr; assumption. }
  rewrite Hc. apply square_intro.
  - rewrite length_map, length_seq. reflexivity.
  - intros i Hi. rewrite (nth_map_in _ _ _ 0%nat) by (rewrite length_seq; lia).
    rewrite length_map. exact Hl.
Qed.

Lemma entry_transpose (n : nat) (M : mat) (i j : nat) :
  square n M -> (i < n)%nat -> (j < n)%nat ->
  entry (transpose M) i j = entry M j i.
Proof.
  intros HM Hi Hj. unfold entry, transpose. destruct HM as [Hl Hr].
  assert (Hc : length (hd [] M) = n).
  { destruct M as [| r M]; simpl in *; [lia |].
    inversion Hr; assumption. }
  rewrite Hc.
  rewrite (nth_map_in _ _ _ 0%nat) by (rewrite length_seq; lia).
  rewrite seq_nth by exact Hi. cbn [Nat.add].
  apply (nth_map_in (fun row => nth i row f0) M f0 []). lia.
Qed.

Lemma symmetric_entry (n : nat) (M : mat) (i j : nat) :
  square n M -> symmetric M -> (i < n)%nat -> (j < n)%nat ->
  entry M i j = entry M j i.
Proof.
  intros HM Hs Hi Hj. rewrite <- Hs at 1.
  apply (entry_transpose HM Hi Hj).
Qed.

Lemma symmetric_intro (n : nat) (M : mat) :
  square n M ->
  (forall i j, (i < n)%nat -> (j < n)%nat -> entry M i j = entry M j i) ->
  symmetric M.
Proof.
  intros HM He. apply (@square_ext n).
  - apply square_transpose. exact HM.
  - exact HM.
  - intros i j Hi Hj. rewrite (entry_transpose HM Hi Hj). apply He; auto.
Qed.

Lemma length_matvec (M : mat) (v : vec) : length (matvec M v) = length M.
Proof. apply length_map. Qed.

Lemma length_vscale (c : F) (v : vec) : length (vscale c v) = length v.
Proof. apply length_map. Qed.

End LinAlgFacts.

(** ** The rank-two update keeps [H] symmetric *)

Section UpdateShape.
Context {F : Type} {SF : Scalar F}.
Local Abbreviation vec := (list F).
Local Abbreviation mat := (list (list F)).

Variable n : nat.
Variable Hm : mat.
Variables s y : vec.
Variable sty : F.
Hypothesis Hm_square : square n Hm.
Hypothesis s_length : length s = n.

Let rho : F := fdiv f1 sty.
Let Hy : vec := matvec Hm y.
Let sscaled : vec := vscale (fsqrt (sstfactor Hm y sty)) s.

Lemma rhoHyst_square : square n (mscale rho (outer Hy s)).
Proof.
  apply square_mscale, square_outer; [| exact s_length].
  unfold Hy. rewrite length_matvec. apply Hm_square.
Qed.

Lemma sscaled_length : length sscaled = n.
Proof. unfold sscaled. rewrite length_vscale. exact s_length. Qed.

Lemma rank_two_square : square n (rank_two Hm s y sty).
Proof.
  unfold rank_two, madd, msub.
  repeat apply square_mmap2; try exact Hm_square;
    try apply square_transpose; try exact rhoHyst_square.
  apply square_outer; exact sscaled_length.
Qed.

(** The update, entry by entry. *)
Lemma entry_rank_two (i j : nat) :
  (i < n)%nat -> (j < n)%nat ->
  entry (rank_two Hm s y sty) i j =
  fadd (fsub (entry Hm i j)
             (fadd (fmul rho (fmul (nth j Hy f0) (nth i s f0)))
                   (fmul rho (fmul (nth i Hy f0) (nth j s f0)))))
       (fmul (nth i sscaled f0) (nth j sscaled f0)).
Proof.
  intros Hi Hj. unfold rank_two, madd, msub.
  assert (HA := rhoHyst_square).
  assert (HyL : length Hy = n).
  { unfold Hy. rewrite length_matvec. apply Hm_square. }
  rewrite (@entry_mmap2 _ _ fadd n); auto.
  2:{ repeat apply square_mmap2; auto. apply square_transpose; auto. }
  2:{ apply square_outer; exact sscaled_length. }
  rewrite (@entry_mmap2 _ _ fsub n); auto.
  2:{ apply square_mmap2; auto. apply square_transpose; auto. }
  rewrite (@entry_mmap2 _ _ fadd n); auto.
  2:{ apply square_transpose; auto. }
  rewrite (entry_transpose HA Hi Hj).
  rewrite !(@entry_mscale _ _ rho n); auto.
  2,3: apply square_outer; auto.
  rewrite !entry_outer;
    try (fold sscaled; rewrite sscaled_length; lia);
    try (fold Hy; rewrite HyL; lia); try lia.
  reflexivity.
Qed.
End UpdateShape.

Section UpdateSymmetric.
Context {F : Type} {SF : Scalar F}.
Local Abbreviation vec := (list F).
Local Abbreviation mat := (list (list F)).

Hypothesis fadd_comm : forall a b : F, fadd a b = fadd b a.
Hypothesis fmul_comm : forall a b : F, fmul a b = fmul b a.

Lemma rank_two_symmetric (n : nat) (Hm : mat) (s y : vec) (sty : F) :
  square n Hm -> length s = n -> symmetric Hm ->
  symmetric (rank_two Hm s y sty).
Proof.
  intros Hsq Hs Hsym. apply (@symmetric_intro _ _ n).
  - apply rank_two_square; assumption.
  - intros i j Hi Hj.
    rewrite (@entry_rank_two _ _ n Hm s y sty Hsq Hs i j Hi Hj).
    rewrite (@entry_rank_two _ _ n Hm s y sty Hsq Hs j i Hj Hi).
    rewrite (symmetric_entry Hsq Hsym Hi Hj).
    f_equal; [f_equal |]; [apply fadd_comm | apply fmul_comm].
Qed.

Lemma prescale_square (P : params F) (n : nat) (it : Z) (Hm : mat)
      (y : vec) (sty : F) :
  square n Hm -> square n (bfgs_prescale P it Hm y sty).
Proof.
  intros Hsq. unfold bfgs_prescale.
  destruct ((it =? 0) && truthy (scale P)); [apply square_mscale |];
    exact Hsq.
Qed.

Lemma prescale_symmetric (P : params F) (n : nat) (it : Z) (Hm : mat)
      (y : vec) (sty : F) :
  square n Hm -> symmetric Hm -> symmetric (bfgs_prescale P it Hm y sty).
Proof.
  intros Hsq Hsym. unfold bfgs_prescale.
  destruct ((it =? 0) && truthy (scale P)); [| exact Hsym].
  apply (@symmetric_intro _ _ n); [apply square_mscale; exact Hsq |].
  intros i j Hi Hj. rewrite !(@entry_mscale _ _ _ n) by assumption.
  f_equal. apply (symmetric_entry Hsq Hsym Hi Hj).
Qed.

(** C7. The full-memory update of a symmetric [n] by [n] matrix [H]
    with a step [s] of length [n] and positive curvature [sty] is
    symmetric, as soon as the scalar addition and multiplication are
    commutative: no rounding can break [H' = H'.T]. *)
Theorem bfgs_update_symmetric (P : params F) (n : nat) (it : Z) (Hm : mat)
        (s y : vec) (sty : F) :
  square n Hm -> length s = n -> symmetric Hm ->
  flt f0 sty = true ->
  symmetric (bfgs_update P it Hm s y sty).
Proof.
  intros Hsq Hs Hsym _. unfold bfgs_update.
  apply (@rank_two_symmetric n).
  - apply prescale_square. exact Hsq.
  - exact Hs.
  - apply (@prescale_symmetric P n); assumption.
Qed.
End UpdateSymmetric.

(** ** The secant equation, in exact arithmetic *)

Section SecantR.
Local Open Scope R_scope.







Lemma Rflt_true (a b : R) : flt a b = true -> a < b.
Proof.
  simpl. unfold Rltb. destruct (Rlt_dec a b); [auto | discriminate].
Qed.

Variable P : params R.
Variable n : nat.
Variable it : Z.
Variable Hm : list (list R).
Variables s y : list R.

Hypothesis Hm_square : square n Hm.
Hypothesis s_length : length s = n.
Hypothesis y_length : length y = n.

Let sty : R := dot s y.
Let H1 : list (list R) := bfgs_prescale P it Hm y sty.
Let rho : R := 1 / sty.
Let ytHy : R := dot y (matvec H1 y).

Hypothesis curvature : 0 < sty.
Hypothesis no_clamp : 0 <= rho * rho * ytHy + rho.


End SecantR.

(** ** The gradient cache *)

Section CacheProperties.
Variable A : Type.
Variable ngrad : Z.
Hypothesis ngrad_pos : 1 <= ngrad.

Lemma py_take_nonneg (l : list A) (k : Z) :
  0 <= k -> py_take l k = firstn (Z.to_nat k) l.
Proof.
  intros Hk. unfold py_take.
  destruct (k <? 0) eqn:E; [apply Z.ltb_lt in E; lia | reflexivity].
Qed.

Lemma cache_step_ok (far : bool) (x g : A) (c : cache A) :
  cache_ok ngrad c -> cache_ok ngrad (cache_step far ngrad x g c).
Proof.
  intros [HnG [HX Hb]]. unfold cache_step, cache_ok.
  destruct far; [cbn; lia |].
  destruct (c_nG c <? ngrad) eqn:E.
  - apply Z.ltb_lt in E. cbn [c_nG c_G c_X length]. lia.
  - apply Z.ltb_ge in E. cbn [c_nG c_G c_X length].
    rewrite !py_take_nonneg by lia. rewrite !length_firstn. lia.
Qed.

Lemma cache_step_pairs (far : bool) (x g : A) (c : cache A) :
  cache_ok ngrad c ->
  pairs (cache_step far ngrad x g c)
  = spec_cache_step far ngrad (x, g) (pairs c).
Proof.
  intros [HnG [HX Hb]]. unfold cache_step, spec_cache_step, pairs.
  destruct far; [reflexivity |].
  destruct (c_nG c <? ngrad) eqn:E.
  - apply Z.ltb_lt in E. cbn [c_nG c_G c_X combine].
    symmetry. apply firstn_all2. cbn [length].
    rewrite length_combine. lia.
  - apply Z.ltb_ge in E. cbn [c_nG c_G c_X combine].
    rewrite !py_take_nonneg by lia. rewrite <- combine_firstn.
    replace (Z.to_nat ngrad) with (S (Z.to_nat (ngrad - 1))) by lia.
    reflexivity.
Qed.

Lemma pairs_length (c : cache A) :
  cache_ok ngrad c -> Z.of_nat (length (pairs c)) = c_nG c.
Proof.
  intros [HnG [HX Hb]]. unfold pairs. rewrite length_combine. lia.
Qed.

Lemma cache_run_ok (steps : list (bool * (A * A))) (c : cache A) :
  cache_ok ngrad c -> cache_ok ngrad (cache_run ngrad steps c).
Proof.
  revert c. induction steps as [| [far [x g]] rest IH]; intros c Hc;
    cbn [cache_run]; [exact Hc |].
  apply IH, cache_step_ok, Hc.
Qed.

(** What the cache holds is a prefix of what the run has seen. *)
Lemma cache_run_recent (steps : list (bool * (A * A))) (c : cache A)
      (hist : list (A * A)) :
  cache_ok ngrad c ->
  pairs c = firstn (length (pairs c)) hist ->
  let c' := cache_run ngrad steps c in
  pairs c' = firstn (length (pairs c')) (rev (map snd steps) ++ hist).
Proof.
  revert c hist. induction steps as [| [far [x g]] rest IH];
    intros c hist Hc Hp; cbn [cache_run map rev snd].
  - exact Hp.
  - rewrite <- app_assoc. cbn [app].
    apply IH; [apply cache_step_ok, Hc |].
    rewrite (cache_step_pairs far x g Hc). unfold spec_cache_step.
    destruct far; [reflexivity |].
    rewrite Hp at 1. cbn [firstn].
    replace (Z.to_nat ngrad) with (S (Z.to_nat (ngrad - 1))) by lia.
    cbn [firstn length]. rewrite firstn_firstn. f_equal. f_equal.
    rewrite length_firstn.
    assert (Hle : (length (pairs c) <= length hist)%nat).
    { rewrite Hp. rewrite length_firstn. lia. }
    lia.
Qed.

Lemma cache_run_size (steps : list (bool * (A * A))) (c : cache A) :
  cache_ok ngrad c ->
  forallb (fun st => negb (fst st)) steps = true ->
  c_nG (cache_run ngrad steps c)
  = Z.min ngrad (c_nG c + Z.of_nat (length steps)).
Proof.
  revert c. induction steps as [| [far [x g]] rest IH]; intros c Hc Hall;
    cbn [cache_run length].
  - destruct Hc as [_ [_ Hb]]. lia.
  - cbn [forallb fst] in Hall. apply andb_prop in Hall.
    destruct Hall as [Hfar Hall]. destruct far; [discriminate |].
    rewrite IH by (try apply cache_step_ok; assumption).
    unfold cache_step. destruct Hc as [_ [_ Hb]].
    destruct (c_nG c <? ngrad) eqn:E; cbn [c_nG].
    + lia.
    + apply Z.ltb_ge in E. lia.
Qed.

Lemma cache_init_ok (x g : A) : cache_ok ngrad (cache_init x g).
Proof. unfold cache_ok, cache_init. cbn. lia. Qed.

(** The cache as a data structure, for [ngrad >= 1]: a far step resets it
    to the singleton; any other step pushes the new pair to the front and
    drops the oldest pair when the size would exceed [ngrad]; along a
    sequence of steps the counter is the size, the size is at most
    [ngrad], and the cache holds the most recent pairs. *)
Theorem cache_holds_most_recent :
  (forall (x g : A) (c : cache A),
      cache_step true ngrad x g c = mk_cache 1 [g] [x])
  /\ (forall (x g : A) (c : cache A),
         cache_ok ngrad c ->
         pairs (cache_step false ngrad x g c)
         = firstn (Z.to_nat ngrad) ((x, g) :: pairs c))
  /\ (forall (steps : list (bool * (A * A))) (x0 g0 : A),
         let c := cache_run ngrad steps (cache_init x0 g0) in
         let size := length (pairs c) in
         cache_ok ngrad c
         /\ Z.of_nat size = c_nG c
         /\ Z.of_nat size <= ngrad
         /\ pairs c = firstn size (seen steps (x0, g0)))
  /\ (forall (steps : list (bool * (A * A))) (x0 g0 : A),
         forallb (fun st => negb (fst st)) steps = true ->
         Z.of_nat (length (pairs (cache_run ngrad steps (cache_init x0 g0))))
         = Z.min ngrad (Z.of_nat (length steps) + 1)).
Proof.
  split; [reflexivity |]. split; [| split].
  - intros x g c Hc. apply (cache_step_pairs false x g Hc).
  - intros steps x0 g0 c size.
    assert (Hok : cache_ok ngrad c)
      by (apply cache_run_ok, cache_init_ok).
    split; [exact Hok |]. split; [apply pairs_length, Hok |].
    split.
    + unfold size. rewrite (pairs_length Hok). apply Hok.
    + unfold size, c, seen. apply cache_run_recent.
      * apply cache_init_ok.
      * reflexivity.
  - intros steps x0 g0 Hall.
    rewrite pairs_length by (apply cache_run_ok, cache_init_ok).
    rewrite cache_run_size by (try apply cache_init_ok; assumption).
    cbn [cache_init c_nG]. lia.
Qed.
End CacheProperties.

(** ** hanso: the gradient-sampling phase *)

Section HansoProperties.
Context {F : Type} {SF : Scalar F}.
Local Abbreviation vec := (list F).
Local Abbreviation mat := (list (list F)).

Variable bfgs : F -> F -> F -> Z -> bfgs_result F.
Variable postprocess :
  vec -> F -> list vec -> list vec -> weights F -> Z ->
  loc_dict F * (list vec * (list vec * weights F)).
Variable time_start : F.
Variable time_after : F.

Lemma py_index_some (A : Type) (l : list A) (i : nat) (a : A) :
  nth_error l i = Some a -> py_index l i = Ok a.
Proof. intros E. unfold py_index. rewrite E. reflexivity. Qed.

(** C9 (amended). With [sampgrad] set, when the BFGS phase returns one
    entry per starting point and the best value [f] is finite, below
    neither the target nor the time limit, and the smallest vector [d] is
    not within [normtol], [hanso] raises [NotImplementedError]. *)
Theorem hanso_sampgrad_not_implemented
        (normtol : F) (verbose : Z) (fvalquit cpumax : F)
        (indx : nat) (f : F) (x d : vec) (Hm : mat) (X G : list vec)
        (w : weights F) :
  let r := bfgs fvalquit normtol cpumax verbose in
  length (b_f r) = length (b_x r) ->
  argmin (b_f r) = Ok indx ->
  nth_error (b_f r) indx = Some f ->
  nth_error (b_x r) indx = Some x ->
  nth_error (b_d r) indx = Some d ->
  nth_error (b_H r) indx = Some Hm ->
  nth_error (b_X r) indx = Some X ->
  nth_error (b_G r) indx = Some G ->
  nth_error (b_w r) indx = Some w ->
  isnan f || isinf f = false ->
  flt (fadd time_start cpumax) time_after = false ->
  flt f fvalquit = false ->
  flt (norm2 d) normtol = false ->
  hanso bfgs postprocess time_start time_after true normtol verbose
        fvalquit cpumax
  = Raise NotImplementedError.
Proof.
  intros r Hlen Hmin Hf Hx Hd HH HX HG Hw Hfin Htime Htarget Hopt.
  unfold hanso. fold r.
  rewrite Hlen, Nat.eqb_refl. cbn [py_assert bind].
  rewrite Hmin. cbn [bind].
  rewrite (py_index_some _ _ Hf), (py_index_some _ _ Hx),
    (py_index_some _ _ Hd), (py_index_some _ _ HH),
    (py_index_some _ _ HX), (py_index_some _ _ HG),
    (py_index_some _ _ Hw).
  cbn [bind]. rewrite Hfin, Htime, Htarget, Hopt. reflexivity.
Qed.
End HansoProperties.

(** ** The properties on concrete inputs *)

Section Scenarios.
Import Demo.
Local Open Scope float_scope.

(** An objective that is NaN at the start: code 5, no iteration, the point
    unchanged. *)
Lemma invalid_initial_point_example :
  isnan (bad [1]) || isinf (bad [1])
    || any_nan (grad_quad [1]) || any_inf (grad_quad [1]) = true
  /\ exists o,
      run bad grad_quad (fixed_step 0.25 0) 0 defaults [1] = Ok o
      /\ o_info o = 5%Z /\ o_iter o = 0%Z /\ o_x o = [1].
Proof.
  split; [vm_compute; reflexivity |].
  apply (bfgs1run_invalid_initial_point bad grad_quad (fixed_step 0.25 0)
           None qp_latest hg_dense eig_diag 0 (fun _ => 0) defaults [1]).
  vm_compute. reflexivity.
Defined.

(** [maxit = 0] on the quadratic from [x0 = [1]]. *)
Lemma maxit_zero_example :
  maxit (with_maxit 0 defaults) = 0%Z
  /\ isnan (quad [1]) || isinf (quad [1]) = false
  /\ any_nan (grad_quad [1]) || any_inf (grad_quad [1]) = false
  /\ run quad grad_quad (fixed_step 0.25 0) 0 (with_maxit 0 defaults) [1]
     = Raise UnboundLocalError.
Proof.
  do 3 (split; [vm_compute; reflexivity |]).
  apply (bfgs1run_maxit_zero_unbound quad grad_quad (fixed_step 0.25 0)
           None qp_latest hg_dense eig_diag 0 (fun _ => 0)
           (with_maxit 0 defaults) [1]);
    vm_compute; reflexivity.
Defined.

(** The first iteration on the double well: the step is accepted with
    [fail = 1], no termination check holds, the curvature is negative, and
    the iteration raises. *)
Lemma nonpositive_curvature_example :
  eig_nonneg eig_diag well_state = true
  /\ fle 0 (dot (st_g well_state) well_p)
       || isnan (dot (st_g well_state) well_p) = false
  /\ line_search well grad_well well_ls None well_params [0.5] well_p
     = Ok well_step
  /\ ls_fail well_step = 1%Z
  /\ check_termination (fun _ => 0) well_params infinity 0
       (ls_f well_step) (ls_x well_step) 1 1
       (norm2 (ls_g well_step)) = Ok None
  /\ flt 0 (dot (vscale (ls_alpha well_step) well_p)
                (vsub (ls_g well_step) (st_g well_state))) = false
  /\ iteration well grad_well well_ls None qp_latest hg_dense eig_diag
       (fun _ => 0) well_params [[1]] 2 infinity 0 well_state
     = Raise AssertionError.
Proof.
  do 6 (split; [vm_compute; reflexivity |]).
  apply iteration_nonpositive_curvature_aborts
    with (ls := well_step) (wd := (w_one, ls_g well_step));
    vm_compute; reflexivity.
Defined.

(** The same input through the whole of [bfgs1run]. *)
Example nonpositive_curvature_run :
  run well grad_well well_ls 0 well_params [0.5] = Raise AssertionError.
Proof. vm_compute. reflexivity. Qed.

(** After one step on the quadratic with the clock past the limit. *)
Lemma time_limit_example :
  flt 0.25 (fvalquit (with_cpumax 1 defaults)) = false
  /\ flt (xnormquit (with_cpumax 1 defaults)) (norm2 [0.5]) = false
  /\ (0 =? 1)%Z && truthy (quitLSfail (with_cpumax 1 defaults)) = false
  /\ (0 =? -1)%Z = false
  /\ fle 1 (normtol (with_cpumax 1 defaults)) = false
  /\ flt 1 2 = true
  /\ check_termination (fun _ => 2) (with_cpumax 1 defaults) 1 0 0.25 [0.5]
       0 1 1 = Raise TypeError.
Proof.
  do 6 (split; [vm_compute; reflexivity |]).
  apply (check_termination_time_limit_raises (fun _ => 2)
           (with_cpumax 1 defaults) 1 0 0.25 [0.5] 0 1 1);
    vm_compute; reflexivity.
Defined.

(** The same through the whole of [bfgs1run]: the clock reads 2, the run
    started at 0 with [cpumax = 1]. *)
Example time_limit_run :
  run quad grad_quad (fixed_step 0.25 0) 2 (with_cpumax 1 defaults) [1]
  = Raise TypeError.
Proof. vm_compute. reflexivity. Qed.

(** One iteration on the quadratic with the default arguments. *)
Lemma always_records_example :
  exists st',
    iteration quad grad_quad (fixed_step 0.25 0) None qp_latest hg_dense
      eig_diag (fun _ => 0) defaults [[1]] 2 infinity 0
      (initial_state quad grad_quad defaults [1]) = Ok (Continue st')
    /\ st_xrec st'
       = st_xrec (initial_state quad grad_quad defaults [1]) ++ [st_x st']
    /\ st_Hrec st'
       = st_Hrec (initial_state quad grad_quad defaults [1])
           ++ [st_H (initial_state quad grad_quad defaults [1])]
    /\ exists tr,
        st_fevalrec st'
        = st_fevalrec (initial_state quad grad_quad defaults [1]) ++ [tr].
Proof.
  eexists. split; [vm_compute; reflexivity |].
  apply (iteration_always_records quad grad_quad (fixed_step 0.25 0) None
           qp_latest hg_dense eig_diag (fun _ => 0) defaults [[1]] 2
           infinity 0 (initial_state quad grad_quad defaults [1])).
  vm_compute. reflexivity.
Defined.

(** The histories a default call returns after one iteration. *)
Example always_records_run :
  exists o,
    run quad grad_quad (fixed_step 0.25 0) 0 (with_maxit 1 defaults) [1]
    = Ok o
    /\ o_xrec o = [[0.5]] /\ o_Hrec o = [[[1]]] /\ o_fevalrec o = [[0.25]].
Proof. eexists. vm_compute. repeat split. Qed.

(** The first iteration of a run on the quadratic that returns begins with
    a matrix that passes the assertion. *)
Lemma eig_assertion_example :
  (exists o,
      run quad grad_quad (fixed_step 0.25 0) 0 (with_maxit 1 defaults) [1]
      = Ok o)
  /\ isnan (quad [1]) || isinf (quad [1]) = false
  /\ any_nan (grad_quad [1]) || any_inf (grad_quad [1]) = false
  /\ eig_nonneg eig_diag
       (initial_state quad grad_quad (with_maxit 1 defaults) [1]) = true.
Proof.
  split; [eexists; vm_compute; reflexivity |].
  do 2 (split; [vm_compute; reflexivity |]).
  assert (Hrun : exists o,
             run quad grad_quad (fixed_step 0.25 0) 0
                 (with_maxit 1 defaults) [1] = Ok o)
    by (eexists; vm_compute; reflexivity).
  destruct Hrun as [o Hrun].
  apply (proj2 (eig_assertion_guards_iterations quad grad_quad
                  (fixed_step 0.25 0) None qp_latest hg_dense eig_diag 0
                  (fun _ => 0) (with_maxit 1 defaults))
               [1] o 0%Z _ Hrun);
    try (vm_compute; reflexivity).
  apply visits_here.
Defined.

(** With [ngrad = 0] the cache still holds one pair after a step. *)
Lemma cache_exceeds_ngrad_zero :
  length (c_G (cache_step true 0 [0.5] [1] (cache_init [1] [2]))) = 1%nat
  /\ length (c_G (cache_step false 0 [0.5] [1] (cache_init [1] [2]))) = 1%nat
  /\ exists o,
      run quad grad_quad (fixed_step 0.25 0) 0
          (with_ngrad 0 (with_maxit 1 defaults)) [1] = Ok o
      /\ o_info o = 1%Z
      /\ ~ (Z.of_nat (length (o_G o)) <= 0)%Z.
Proof.
  do 2 (split; [reflexivity |]).
  eexists. split; [vm_compute; reflexivity |].
  split; [reflexivity |]. cbn. lia.
Qed.

(** [hanso] with [sampgrad] set and a best value that is finite. *)
Lemma hanso_not_implemented_example :
  isnan 3 || isinf 3 = false
  /\ flt (fadd 0 infinity) 0 = false
  /\ flt 3 neg_infinity = false
  /\ flt (norm2 [1]) 1e-6 = false
  /\ hanso_one 3 true = Raise NotImplementedError.
Proof.
  do 4 (split; [vm_compute; reflexivity |]).
  apply hanso_sampgrad_not_implemented
    with (indx := 0%nat) (f := 3) (x := [1]) (d := [1]) (Hm := [[1]])
         (X := [[1]]) (G := [[1]]) (w := w_one);
    vm_compute; reflexivity.
Defined.

(** [hanso] with [sampgrad] set and a best value that is NaN: the target,
    the time limit and the tolerance are not reached, and the call returns
    the BFGS result. *)
Lemma hanso_nan_returns :
  flt nan neg_infinity = false
  /\ flt (fadd 0 infinity) 0 = false
  /\ flt (norm2 [1]) 1e-6 = false
  /\ hanso_one nan true
     = Ok (Some (mk_hanso [1] nan (mk_loc 1 1e-4) [[1]] [[1]] w_one [[1]]))
  /\ hanso_one nan true <> Raise NotImplementedError.
Proof.
  do 3 (split; [vm_compute; reflexivity |]).
  split; [vm_compute; reflexivity |].
  vm_compute. discriminate.
Qed.
End Scenarios.

Section RealScenarios.
Local Open Scope R_scope.

Lemma Rflt_intro (a b : R) : a < b -> flt a b = true.
Proof.
  intros Hab. simpl. unfold Rltb. destruct (Rlt_dec a b); [auto | lra].
Qed.

(** The update of [[2, 1], [1, 2]] with [s = y = [1, 0]]. *)
Lemma symmetric_example :
  square 2 [[2; 1]; [1; 2]]
  /\ symmetric [[2; 1]; [1; 2]]
  /\ flt f0 1 = true
  /\ symmetric (bfgs_update real_params 0 [[2; 1]; [1; 2]] [1; 0] [1; 0] 1).
Proof.
  assert (Hsq : square 2 [[2; 1]; [1; 2]]).
  { split; [reflexivity |]. repeat constructor. }
  assert (Hsym : symmetric [[2; 1]; [1; 2]]) by reflexivity.
  assert (Hpos : flt f0 1 = true) by (apply Rflt_intro; simpl; lra).
  do 3 (split; [assumption |]).
  apply (@bfgs_update_symmetric R R_Scalar Rplus_comm Rmult_comm real_params
           2%nat 0%Z [[2; 1]; [1; 2]] [1; 0] [1; 0] 1 Hsq eq_refl Hsym Hpos).
Defined.

End RealScenarios.

Section CacheScenarios.
(** A cache of at most two pairs after three pushes. *)
Lemma cache_example :
  1 <= 2
  /\ pairs (cache_run 2 [(false, (1, 11)); (false, (2, 12)); (false, (3, 13))]
                      (cache_init 0 10))
     = [(3, 13); (2, 12)].
Proof.
  split; [lia |].
  destruct (@cache_holds_most_recent Z 2 ltac:(lia)) as [_ [_ [Hrun _]]].
  specialize (Hrun [(false, (1, 11)); (false, (2, 12)); (false, (3, 13))]
                   0 10).
  destruct Hrun as [_ [_ [_ Hrecent]]].
  rewrite Hrecent. reflexivity.
Defined.
End CacheScenarios.

(** ** The newest pair leads the cache *)

Section CacheShape.
Variable A : Type.

Lemma py_take_length (l l' : list A) (k : Z) :
  length l = length l' -> length (py_take l k) = length (py_take l' k).
Proof.
  intros E. unfold py_take. rewrite E.
  destruct (k <? 0); rewrite !length_firstn; lia.
Qed.

Lemma cache_step_heads (far : bool) (ngrad : Z) (x g : A) (c : cache A) :
  exists Xs Gs,
    c_X (cache_step far ngrad x g c) = x :: Xs
    /\ c_G (cache_step far ngrad x g c) = g :: Gs
    /\ (length (c_X c) = length (c_G c) -> length Xs = length Gs).
Proof.
  unfold cache_step. destruct far; [| destruct (c_nG c <? ngrad)];
    cbn [c_X c_G]; do 2 eexists; repeat split; auto.
  intros E. apply py_take_length. exact E.
Qed.
End CacheShape.

(** ** Invariants of the main loop *)

Section RunInvariants.
Context {F : Type} {SF : Scalar F}.
Local Abbreviation vec := (list F).
Local Abbreviation mat := (list (list F)).

Variable func : vec -> F.
Variable grad : vec -> vec.
Variable linesch_ww : linesearch F.
Variable linesch_sw : option (linesearch F).
Variable qpspecial : list vec -> Z -> vec * vec.
Variable hgprod : mat -> vec -> list F -> list F -> vec.
Variable eig : mat -> list F.
Variable time_start : F.
Variable time_iter : Z -> F.
Variable P : params F.

Local Abbreviation bfgs1run' :=
  (bfgs1run func grad linesch_ww linesch_sw qpspecial hgprod eig
            time_start time_iter P).
Local Abbreviation main_loop' :=
  (main_loop func grad linesch_ww linesch_sw qpspecial hgprod eig
             time_start time_iter P).
Local Abbreviation iteration' :=
  (iteration func grad linesch_ww linesch_sw qpspecial hgprod eig
             time_iter P).
Local Abbreviation loop' :=
  (loop func grad linesch_ww linesch_sw qpspecial hgprod eig time_iter P).
Local Abbreviation initial_state' := (initial_state func grad P).
Local Abbreviation line_search' :=
  (line_search func grad linesch_ww linesch_sw P).

(** The state after the line search of an iteration, before the update
    of [H]. *)
Let searched (ngrad_ : Z) (st : state F) (ls : ls_result F)
    (wd : weights F * vec) : state F :=
  mk_state (ls_x ls) (ls_f ls) (ls_g ls) (snd wd) (st_H st) (st_S st)
           (st_Y st)
           (update_cache P ngrad_ (ls_alpha ls) (direction hgprod P st)
                         (ls_x ls) (ls_g ls) (st_cache st))
           (fst wd) (norm2 (snd wd))
           (st_fevalrec st ++ [ls_fevalrecline ls])
           (st_xrec st ++ [ls_x ls])
           (st_Hrec st ++ [st_H st]).

Let updated (st1 : state F) (u : mat * (list F * list F)) : state F :=
  mk_state (st_x st1) (st_f st1) (st_g st1) (st_d st1) (fst u)
           (fst (snd u)) (snd (snd u)) (st_cache st1) (st_w st1)
           (st_dnorm st1) (st_fevalrec st1) (st_xrec st1) (st_Hrec st1).

(** The three ways an iteration can end without raising. *)
Lemma iteration_cases (H0m : mat) (ngrad_ : Z) (cpuf : F) (it : Z)
      (st : state F) (c : control F) :
  iteration' H0m ngrad_ cpuf it st = Ok c ->
  c = Return (output_of st it 6)
  \/ exists ls wd,
      let st1 := searched ngrad_ st ls wd in
      line_search' (st_x st) (direction hgprod P st) = Ok ls
      /\ optimality qpspecial P (st_cache st1) (ls_g ls) = Ok wd
      /\ ((exists info,
              check_termination time_iter P cpuf it (ls_f ls) (ls_x ls)
                (ls_fail ls) (c_nG (st_cache st1)) (norm2 (snd wd))
              = Ok (Some info)
              /\ c = Return (output_of st1 it info))
          \/ (exists u,
                 hessian_step P H0m it (ls_alpha ls) (direction hgprod P st)
                   (ls_g ls) (st_g st) (st_H st) (st_S st) (st_Y st) = Ok u
                 /\ c = Continue (updated st1 u))).
Proof.
  unfold iteration. intros E.
  apply bind_ok in E. destruct E as [[] [_ E]].
  destruct (fle f0 _ || isnan _).
  - apply bind_ok in E. destruct E as [[] [_ E]]. left. congruence.
  - right.
    apply bind_ok in E. destruct E as [ls [Hls E]].
    apply bind_ok in E. destruct E as [wd [Hwd E]].
    apply bind_ok in E. destruct E as [[] [_ E]].
    apply bind_ok in E. destruct E as [t [Ht E]].
    exists ls, wd. cbn zeta. split; [exact Hls |]. split; [exact Hwd |].
    destruct t as [info |].
    + left. exists info. split; [exact Ht |].
      injection E as <-. reflexivity.
    + right. apply bind_ok in E. destruct E as [u [Hu E]].
      exists u. split; [exact Hu |]. injection E as <-. reflexivity.
Qed.

(** The termination checks as one chain of tests. *)
Lemma check_termination_flat
      (cpuf : F) (it : Z) (f : F) (x : vec) (fail nG : Z) (dnorm : F) :
  check_termination time_iter P cpuf it f x fail nG dnorm
  = if flt f (fvalquit P) then Ok (Some 2)
    else if flt (xnormquit P) (norm2 x) then Ok (Some 3)
    else if (fail =? 1) && truthy (quitLSfail P) then Ok (Some 7)
    else if fail =? -1 then Ok (Some 8)
    else if fle dnorm (normtol P) then Ok (Some 0)
    else if flt cpuf (time_iter it) then Raise TypeError
    else Ok None.
Proof.
  unfold check_termination.
  destruct (flt f (fvalquit P)); [reflexivity |].
  destruct (flt (xnormquit P) (norm2 x)); [reflexivity |].
  destruct (fail =? 1) eqn:E1.
  - apply Z.eqb_eq in E1. subst fail. cbn [andb Z.eqb].
    destruct (truthy (quitLSfail P)); cbn [negb bind]; [reflexivity |].
    destruct (fle dnorm (normtol P)); [destruct (nG =? 1); reflexivity |].
    destruct (flt cpuf (time_iter it)); reflexivity.
  - cbn [andb]. destruct (fail =? -1); [reflexivity |]. cbn [bind].
    destruct (fle dnorm (normtol P)); [destruct (nG =? 1); reflexivity |].
    destruct (flt cpuf (time_iter it)); reflexivity.
Qed.

(** The codes the termination checks can give. *)
Lemma check_termination_codes (cpuf : F) (it : Z) (f : F) (x : vec)
      (fail nG : Z) (dnorm : F) (info : Z) :
  check_termination time_iter P cpuf it f x fail nG dnorm = Ok (Some info) ->
  info = 2 \/ info = 3
  \/ (info = 7 /\ fail = 1 /\ truthy (quitLSfail P) = true)
  \/ (info = 8 /\ fail = -1) \/ info = 0.
Proof.
  intros E.
  assert (Hp := check_termination_flat cpuf it f x fail nG dnorm).
  rewrite E in Hp. clear E.
  destruct (flt f (fvalquit P)); [left; congruence |].
  destruct (flt (xnormquit P) (norm2 x)); [right; left; congruence |].
  destruct ((fail =? 1) && truthy (quitLSfail P)) eqn:E1.
  { apply andb_prop in E1. destruct E1 as [E1 E2]. apply Z.eqb_eq in E1.
    right. right. left. split; [congruence | auto]. }
  destruct (fail =? -1) eqn:E2.
  { apply Z.eqb_eq in E2. do 3 right. left. split; [congruence | auto]. }
  destruct (fle dnorm (normtol P)); [do 4 right; congruence |].
  destruct (flt cpuf (time_iter it)); discriminate.
Qed.

(** An invariant of the states at the head of the loop, and what it
    gives for the outputs returned from inside iteration [it]. *)
Section Invariant.
Variable Inv : Z -> state F -> Prop.
Variable Post : Z -> output F -> Prop.
Variables (H0m : mat) (ngrad_ : Z) (cpuf : F).

Hypothesis step :
  forall (it : Z) (st : state F) (c : control F),
    0 <= it -> Inv it st -> iteration' H0m ngrad_ cpuf it st = Ok c ->
    match c with
    | Continue st' => Inv (it + 1) st'
    | Return o => Post it o
    end.

Lemma loop_invariant (n : nat) :
  forall (it : Z) (iv : option Z) (st : state F) (r : loop_exit F),
    0 <= it -> Inv it st ->
    loop' H0m ngrad_ cpuf n it iv st = Ok r ->
    match r with
    | Returned o => exists it', it <= it' < it + Z.of_nat n /\ Post it' o
    | Exhausted st' iv' =>
        Inv (it + Z.of_nat n) st'
        /\ iv' = match n with
                 | O => iv
                 | S m => Some (it + Z.of_nat m)
                 end
    end.
Proof.
  induction n as [| n IH]; intros it iv st r Hit Hinv E; cbn [loop] in E.
  - injection E as <-. rewrite Z.add_0_r. auto.
  - apply bind_ok in E. destruct E as [c [Hc E]].
    assert (Hs := step Hit Hinv Hc).
    destruct c as [st' | o].
    + assert (Hit' : 0 <= it + 1) by lia.
      specialize (IH (it + 1) (Some it) st' r Hit' Hs E).
      destruct r as [o | st2 iv2].
      * destruct IH as [it' [Hr Hp]]. exists it'. split; [lia | exact Hp].
      * destruct IH as [Hi Hv]. split.
        -- replace (it + Z.of_nat (S n)) with (it + 1 + Z.of_nat n) by lia.
           exact Hi.
        -- rewrite Hv. destruct n as [| m]; f_equal; lia.
    + injection E as <-. exists it. split; [lia | exact Hs].
Qed.
End Invariant.

(** The three ways [bfgs1run] can return. *)
Lemma bfgs1run_invariant (Inv : Z -> state F -> Prop)
      (Post : Z -> output F -> Prop) (x0 : vec) (o : output F) :
  Inv 0 (initial_state' x0) ->
  (forall (it : Z) (st : state F) (c : control F),
      0 <= it -> Inv it st ->
      iteration' (initial_H P x0) (cache_size P x0)
                 (cpufinish time_start P) it st = Ok c ->
      match c with
      | Continue st' => Inv (it + 1) st'
      | Return o => Post it o
      end) ->
  bfgs1run' x0 = Ok o ->
  o = output_of (initial_state' x0) 0 5
  \/ (exists it, 0 <= it < maxit P /\ Post it o)
  \/ (exists st, 0 < maxit P /\ Inv (maxit P) st
                 /\ o = output_of st (maxit P - 1) 1).
Proof.
  intros H0 Hstep E. unfold bfgs1run in E.
  destruct (isnan _ || isinf _); [left; congruence |].
  destruct (any_nan _ || any_inf _); [left; congruence |].
  right. apply bind_ok in E. destruct E as [r [Hloop E]].
  unfold main_loop in Hloop.
  assert (L := @loop_invariant Inv Post _ _ _ Hstep (Z.to_nat (maxit P)) 0
                 None (initial_state' x0) r (Z.le_refl 0) H0 Hloop).
  destruct r as [o' | st iv].
  - left. injection E as <-. destruct L as [it [Hr Hp]].
    exists it. split; [lia | exact Hp].
  - right. destruct L as [Hi Hv].
    apply bind_ok in E. destruct E as [[] [_ E]].
    apply bind_ok in E. destruct E as [it [Hl E]].
    destruct (Z.to_nat (maxit P)) as [| m] eqn:Em;
      rewrite Hv in Hl; cbn in Hl; [discriminate |].
    injection Hl as <-. exists st.
    assert (Hm : maxit P = Z.of_nat (S m)) by lia.
    split; [lia |]. split.
    + rewrite Hm. exact Hi.
    + injection E as <-. f_equal. lia.
Qed.

Ltac iteration_inv Hc ls wd Hls Hwd info Hterm u Hup :=
  apply iteration_cases in Hc;
  destruct Hc as [-> | [ls [wd [Hls [Hwd [[info [Hterm ->]]
                                         | [u [Hup ->]]]]]]]];
  cbn zeta in *; unfold updated, searched in *.

(** A run that returns gives one of the codes 0, 1, 2, 3, 5, 6, 7, 8,
    never 4 (cpu time exceeded), and gives 7 only when [quitLSfail] is
    set. *)
Theorem bfgs1run_info_codes (x0 : vec) (o : output F) :
  bfgs1run' x0 = Ok o ->
  In (o_info o) [0; 1; 2; 3; 5; 6; 7; 8]
  /\ (o_info o = 7 -> truthy (quitLSfail P) = true).
Proof.
  intros E.
  apply (@bfgs1run_invariant
           (fun _ _ => True)
           (fun _ o => In (o_info o) [0; 2; 3; 6; 7; 8]
                       /\ (o_info o = 7 -> truthy (quitLSfail P) = true)))
    in E.
  - destruct E as [-> | [[it [_ [Hin H7]]] | [st [_ [_ ->]]]]].
    + cbn. split; [tauto | discriminate].
    + split; [| exact H7]. cbn in Hin |- *. tauto.
    + cbn. split; [tauto | discriminate].
  - exact I.
  - intros it st c _ _ Hc.
    iteration_inv Hc ls wd Hls Hwd info Hterm u Hup.
    + cbn. split; [tauto | discriminate].
    + apply check_termination_codes in Hterm. cbn [output_of o_info].
      destruct Hterm as [-> | [-> | [[-> [_ Hq]] | [[-> _] | ->]]]];
        (split; [cbn; tauto | try discriminate; auto]).
    + exact I.
Qed.

(** The returned iteration count is the number of the iteration the run
    ended in, counted from 0: it is never negative, it is below [maxit]
    unless the start was invalid, and a run that exhausts [maxit]
    iterations returns [maxit - 1]. *)
Theorem bfgs1run_iter_range (x0 : vec) (o : output F) :
  bfgs1run' x0 = Ok o ->
  0 <= o_iter o
  /\ (o_info o <> 5 -> o_iter o < maxit P)
  /\ (o_info o = 1 -> o_iter o = maxit P - 1).
Proof.
  intros E.
  apply (@bfgs1run_invariant
           (fun _ _ => True)
           (fun it o => o_iter o = it /\ o_info o <> 1)) in E.
  - destruct E as [-> | [[it [Hr [Hi H1]]] | [st [Hm [_ ->]]]]].
    + cbn. repeat split; [lia | congruence | discriminate].
    + rewrite Hi. repeat split; [lia | lia | congruence].
    + cbn. repeat split; lia.
  - exact I.
  - intros it st c _ _ Hc.
    iteration_inv Hc ls wd Hls Hwd info Hterm u Hup.
    + cbn. split; [reflexivity | discriminate].
    + apply check_termination_codes in Hterm. cbn [output_of o_info o_iter].
      split; [reflexivity |].
      destruct Hterm as [-> | [-> | [[-> _] | [[-> _] | ->]]]]; discriminate.
    + exact I.
Qed.

(** The three histories grow together, one entry per completed line
    search: their common length is 0 when the start was invalid, the
    returned iteration count when the direction was not a descent
    direction (code 6), and the count plus one otherwise. *)
Theorem bfgs1run_history_lengths (x0 : vec) (o : output F) :
  bfgs1run' x0 = Ok o ->
  length (o_fevalrec o) = length (o_xrec o)
  /\ length (o_Hrec o) = length (o_xrec o)
  /\ Z.of_nat (length (o_xrec o))
     = if o_info o =? 5 then 0
       else if o_info o =? 6 then o_iter o
       else o_iter o + 1.
Proof.
  intros E.
  apply (@bfgs1run_invariant
           (fun it st =>
              Z.of_nat (length (st_xrec st)) = it
              /\ length (st_fevalrec st) = length (st_xrec st)
              /\ length (st_Hrec st) = length (st_xrec st))
           (fun it o =>
              length (o_fevalrec o) = length (o_xrec o)
              /\ length (o_Hrec o) = length (o_xrec o)
              /\ o_info o <> 5
              /\ Z.of_nat (length (o_xrec o))
                 = if o_info o =? 6 then o_iter o else o_iter o + 1)) in E.
  - destruct E as [-> | [[it [_ [Hf [HH [H5 Hl]]]]] | [st [Hm [Hi ->]]]]].
    + cbn. auto.
    + repeat split; [exact Hf | exact HH |].
      destruct (o_info o =? 5) eqn:E5; [apply Z.eqb_eq in E5; tauto |].
      exact Hl.
    + destruct Hi as [Hl [Hf HH]]. cbn. repeat split; [exact Hf | exact HH |].
      lia.
  - cbn. auto.
  - intros it st c _ [Hl [Hf HH]] Hc.
    iteration_inv Hc ls wd Hls Hwd info Hterm u Hup.
    + cbn. repeat split; [exact Hf | exact HH | discriminate | exact Hl].
    + apply check_termination_codes in Hterm.
      cbn [output_of o_info o_iter o_xrec o_fevalrec o_Hrec st_xrec
           st_fevalrec st_Hrec].
      rewrite !length_app. cbn [length].
      repeat split; [lia | lia | |].
      * destruct Hterm as [-> | [-> | [[-> _] | [[-> _] | ->]]]];
          discriminate.
      * destruct Hterm as [-> | [-> | [[-> _] | [[-> _] | ->]]]];
          cbn [Z.eqb Pos.eqb]; lia.
    + cbn [st_xrec st_fevalrec st_Hrec]. rewrite !length_app. cbn [length].
      repeat split; lia.
Qed.

(** What the histories hold at the ends: the last recorded point is the
    returned point, and the first recorded matrix is the initial [H] (when
    nothing was recorded, the returned [H] is the initial one). *)
Theorem bfgs1run_history_ends (x0 : vec) (o : output F) :
  bfgs1run' x0 = Ok o ->
  last (o_xrec o) (o_x o) = o_x o
  /\ hd (o_H o) (o_Hrec o) = initial_H P x0.
Proof.
  intros E.
  apply (@bfgs1run_invariant
           (fun _ st =>
              last (st_xrec st) (st_x st) = st_x st
              /\ forall Hm, hd Hm (st_Hrec st ++ [st_H st])
                            = initial_H P x0)
           (fun _ o =>
              last (o_xrec o) (o_x o) = o_x o
              /\ hd (o_H o) (o_Hrec o) = initial_H P x0)) in E.
  - destruct E as [-> | [[it [_ Hp]] | [st [_ [[Hl Hh] ->]]]]].
    + cbn. auto.
    + exact Hp.
    + cbn. split; [exact Hl |].
      specialize (Hh (st_H st)). destruct (st_Hrec st); exact Hh.
  - cbn. auto.
  - intros it st c _ [Hl Hh] Hc.
    iteration_inv Hc ls wd Hls Hwd info Hterm u Hup.
    + cbn. split; [exact Hl |].
      specialize (Hh (st_H st)). destruct (st_Hrec st); exact Hh.
    + cbn [output_of o_x o_xrec o_H o_Hrec st_x st_xrec st_H st_Hrec].
      split; [apply last_last | apply Hh].
    + cbn [st_x st_xrec st_H st_Hrec].
      split; [apply last_last |].
      intros Hm. rewrite <- app_assoc.
      specialize (Hh Hm). destruct (st_Hrec st); exact Hh.
Qed.

(** The cache that is returned is led by the returned point: [X] starts
    with [x], [G] is not empty, and the two hold the same number of
    columns (whatever [ngrad] is). *)
Theorem bfgs1run_cache_leads (x0 : vec) (o : output F) :
  bfgs1run' x0 = Ok o ->
  exists Xs g Gs,
    o_X o = o_x o :: Xs /\ o_G o = g :: Gs /\ length Xs = length Gs.
Proof.
  intros E.
  apply (@bfgs1run_invariant
           (fun _ st =>
              exists Xs Gs,
                c_X (st_cache st) = st_x st :: Xs
                /\ c_G (st_cache st) = st_g st :: Gs
                /\ length Xs = length Gs)
           (fun _ o =>
              exists Xs g Gs,
                o_X o = o_x o :: Xs /\ o_G o = g :: Gs
                /\ length Xs = length Gs)) in E.
  - destruct E as [-> | [[it [_ Hp]] | [st [_ [[Xs [Gs Hi]] ->]]]]].
    + exists [], (grad x0), []. cbn. auto.
    + exact Hp.
    + exists Xs, (st_g st), Gs. exact Hi.
  - exists [], []. cbn. auto.
  - intros it st c _ [Xs [Gs [HX [HG HL]]]] Hc.
    assert (Hlen : length (c_X (st_cache st)) = length (c_G (st_cache st)))
      by (rewrite HX, HG; cbn; lia).
    iteration_inv Hc ls wd Hls Hwd info Hterm u Hup.
    + exists Xs, (st_g st), Gs. cbn. auto.
    + cbn [output_of o_x o_X o_G st_x st_cache]. unfold update_cache.
      destruct (cache_step_heads
                  (flt (evaldist P)
                       (fmul (ls_alpha ls) (norm2 (direction hgprod P st))))
                  (cache_size P x0) (ls_x ls) (ls_g ls) (st_cache st))
        as [Xs' [Gs' [HX' [HG' HL']]]].
      exists Xs', (ls_g ls), Gs'. auto.
    + cbn [st_x st_g st_cache]. unfold update_cache.
      destruct (cache_step_heads
                  (flt (evaldist P)
                       (fmul (ls_alpha ls) (norm2 (direction hgprod P st))))
                  (cache_size P x0) (ls_x ls) (ls_g ls) (st_cache st))
        as [Xs' [Gs' [HX' [HG' HL']]]].
      exists Xs', Gs'. auto.
Qed.

Lemma optimality_single (c : cache vec) (g : vec) (wd : weights F * vec) :
  optimality qpspecial P c g = Ok wd -> c_nG c <= 1 -> wd = (w_one, g).
Proof.
  unfold optimality. intros E Hn.
  destruct (1 <? c_nG c) eqn:E1; [apply Z.ltb_lt in E1; lia |].
  congruence.
Qed.

(** With a cache size of at least 1, the returned cache holds at most
    that many gradients, and when it holds exactly one, the returned [d]
    is that gradient and [w] is the int 1. *)
Theorem bfgs1run_cache_bound (x0 : vec) (o : output F) :
  1 <= cache_size P x0 ->
  bfgs1run' x0 = Ok o ->
  Z.of_nat (length (o_G o)) <= cache_size P x0
  /\ (length (o_G o) = 1%nat -> o_w o = w_one /\ o_G o = [o_d o]).
Proof.
  intros Hng E.
  apply (@bfgs1run_invariant
           (fun _ st =>
              cache_ok (cache_size P x0) (st_cache st)
              /\ (c_nG (st_cache st) <= 1 ->
                  st_w st = w_one /\ c_G (st_cache st) = [st_d st]))
           (fun _ o =>
              Z.of_nat (length (o_G o)) <= cache_size P x0
              /\ (length (o_G o) = 1%nat ->
                  o_w o = w_one /\ o_G o = [o_d o]))) in E.
  - destruct E as [-> | [[it [_ Hp]] | [st [_ [[Hok Hone] ->]]]]].
    + cbn. split; [lia | auto].
    + exact Hp.
    + cbn [output_of o_G o_w o_d]. destruct Hok as [HnG [_ Hb]].
      split; [lia |]. intros H1. apply Hone. lia.
  - split; [apply cache_init_ok; exact Hng | cbn; auto].
  - intros it st c _ [Hok Hone] Hc.
    iteration_inv Hc ls wd Hls Hwd info Hterm u Hup.
    + cbn [output_of o_G o_w o_d]. destruct Hok as [HnG [_ Hb]].
      split; [lia |]. intros H1. apply Hone. lia.
    + cbn [output_of o_G o_w o_d st_cache st_w st_d].
      cbn [st_cache] in Hwd. unfold update_cache in *.
      set (cch := cache_step _ _ _ _ _) in *.
      assert (Hok' : cache_ok (cache_size P x0) cch)
        by (apply cache_step_ok; assumption).
      destruct Hok' as [HnG [_ Hb]]. split; [lia |].
      intros H1.
      rewrite (optimality_single _ _ Hwd) by lia. cbn [fst snd].
      split; [reflexivity |].
      destruct (cache_step_heads
                  (flt (evaldist P)
                       (fmul (ls_alpha ls) (norm2 (direction hgprod P st))))
                  (cache_size P x0) (ls_x ls) (ls_g ls) (st_cache st))
        as [Xs' [Gs' [_ [HG' _]]]].
      fold cch in HG'. rewrite HG' in H1 |- *.
      destruct Gs'; [reflexivity | discriminate].
    + cbn [st_cache st_w st_d]. cbn [st_cache] in Hwd.
      unfold update_cache in *.
      set (cch := cache_step _ _ _ _ _) in *.
      assert (Hok' : cache_ok (cache_size P x0) cch)
        by (apply cache_step_ok; assumption).
      split; [exact Hok' |]. intros H1.
      rewrite (optimality_single _ _ Hwd) by lia. cbn [fst snd].
      split; [reflexivity |].
      destruct (cache_step_heads
                  (flt (evaldist P)
                       (fmul (ls_alpha ls) (norm2 (direction hgprod P st))))
                  (cache_size P x0) (ls_x ls) (ls_g ls) (st_cache st))
        as [Xs' [Gs' [_ [HG' _]]]].
      fold cch in HG'. destruct Hok' as [HnG _].
      rewrite HG' in HnG |- *. cbn [length] in HnG.
      destruct Gs'; [reflexivity | cbn [length] in HnG; lia].
Qed.

(** With [strongwolfe] set and no module [linesch_sw] to import, no
    iteration gets past the line search: a run that returns was stopped
    at the start (code 5) or by the descent test (code 6). *)
Theorem bfgs1run_strongwolfe_missing (x0 : vec) (o : output F) :
  strongwolfe P = true ->
  linesch_sw = None ->
  bfgs1run' x0 = Ok o ->
  o_info o = 5 \/ o_info o = 6.
Proof.
  intros Hsw Hnone E.
  assert (Hls0 : forall x p, line_search' x p = Raise ImportError).
  { intros x p. unfold line_search. rewrite Hsw, Hnone. reflexivity. }
  apply (@bfgs1run_invariant
           (fun it _ => it = 0)
           (fun _ o => o_info o = 6)) in E.
  - destruct E as [-> | [[it [_ Hp]] | [st [Hm [Hi _]]]]].
    + left. reflexivity.
    + right. exact Hp.
    + lia.
  - reflexivity.
  - intros it st c _ _ Hc.
    iteration_inv Hc ls wd Hls Hwd info Hterm u Hup;
      try (rewrite Hls0 in Hls; discriminate).
    reflexivity.
Qed.
End RunInvariants.

(** ** The run keeps [H] symmetric in full-memory mode *)

Section RunSymmetric.
Context {F : Type} {SF : Scalar F}.
Local Abbreviation vec := (list F).
Local Abbreviation mat := (list (list F)).

Lemma eye_square (n : nat) : square n (eye (F := F) n).
Proof.
  unfold eye. apply square_intro.
  - rewrite length_map, length_seq. reflexivity.
  - intros i Hi.
    rewrite (nth_map_in _ _ [] 0%nat) by (rewrite length_seq; lia).
    rewrite length_map, length_seq. reflexivity.
Qed.

Lemma entry_eye (n i j : nat) :
  (i < n)%nat -> (j < n)%nat ->
  entry (eye n) i j = if (i =? j)%nat then f1 else f0.
Proof.
  intros Hi Hj. unfold entry, eye.
  rewrite (nth_map_in _ _ [] 0%nat) by (rewrite length_seq; lia).
  rewrite (nth_map_in _ _ f0 0%nat) by (rewrite length_seq; lia).
  rewrite !seq_nth by assumption. reflexivity.
Qed.

Lemma eye_symmetric (n : nat) : symmetric (eye (F := F) n).
Proof.
  apply (@symmetric_intro _ _ n); [apply eye_square |].
  intros i j Hi Hj. rewrite !entry_eye by assumption.
  rewrite Nat.eqb_sym. reflexivity.
Qed.

Hypothesis fadd_comm : forall a b : F, fadd a b = fadd b a.
Hypothesis fmul_comm : forall a b : F, fmul a b = fmul b a.

Variable func : vec -> F.
Variable grad : vec -> vec.
Variable linesch_ww : linesearch F.
Variable linesch_sw : option (linesearch F).
Variable qpspecial : list vec -> Z -> vec * vec.
Variable hgprod : mat -> vec -> list F -> list F -> vec.
Variable eig : mat -> list F.
Variable time_start : F.
Variable time_iter : Z -> F.
Variable P : params F.

(** In full-memory mode the update of [H] is the rank-two update or
    nothing. *)
Lemma hessian_step_full (H0m : mat) (it : Z) (alpha : F) (p g gprev : vec)
      (Hm : mat) (Sv Yv : list F) (u : mat * (list F * list F)) :
  nvec P = 0 ->
  hessian_step P H0m it alpha p g gprev Hm Sv Yv = Ok u ->
  fst u = bfgs_update P it Hm (vscale alpha p) (vsub g gprev)
                      (dot (vscale alpha p) (vsub g gprev))
  \/ fst u = Hm.
Proof.
  intros Hn E. unfold hessian_step in E. rewrite Hn in E.
  apply bind_ok in E. destruct E as [[] [_ E]]. cbn [Z.eqb] in E.
  destruct (flt f0 _).
  - left. injection E as <-. reflexivity.
  - right. apply bind_ok in E. destruct E as [[] [_ E]].
    injection E as <-. reflexivity.
Qed.

(** In full-memory mode, when the scalar addition and multiplication are
    commutative and the initial matrix is square and symmetric (the
    default, the identity, is), the matrix [H] a run returns is square of
    the same size and symmetric. *)
Theorem bfgs1run_keeps_symmetric (x0 : vec) (o : output F) :
  nvec P = 0 ->
  (forall h, H0 P = Some h -> square (length h) h /\ symmetric h) ->
  bfgs1run func grad linesch_ww linesch_sw qpspecial hgprod eig time_start
           time_iter P x0 = Ok o ->
  square (length (initial_H P x0)) (o_H o) /\ symmetric (o_H o).
Proof.
  intros Hn HH0 E.
  set (n := length (initial_H P x0)).
  assert (Hinit : square n (initial_H P x0) /\ symmetric (initial_H P x0)).
  { unfold n, initial_H. destruct (H0 P) as [h |].
    - apply HH0. reflexivity.
    - unfold eye at 1. rewrite length_map, length_seq.
      split; [apply eye_square | apply eye_symmetric]. }
  apply (@bfgs1run_invariant _ _ func grad linesch_ww linesch_sw qpspecial
           hgprod eig time_start time_iter P
           (fun _ st => square n (st_H st) /\ symmetric (st_H st))
           (fun _ o => square n (o_H o) /\ symmetric (o_H o))) in E.
  - destruct E as [-> | [[it [_ Hp]] | [st [_ [Hi ->]]]]];
      [exact Hinit | exact Hp | exact Hi].
  - exact Hinit.
  - intros it st c _ [Hsq Hsym] Hc.
    apply iteration_cases in Hc.
    destruct Hc as [-> | [ls [wd [Hls [Hwd [[info [Hterm ->]]
                                           | [u [Hup ->]]]]]]]];
      cbn zeta in *; cbn [output_of o_H st_H]; auto.
    destruct (hessian_step_full _ _ _ _ _ _ _ _ _ Hn Hup) as [-> | ->];
      [| auto].
    assert (Hs : length (vscale (ls_alpha ls) (direction hgprod P st)) = n).
    { rewrite length_vscale. unfold direction. rewrite Hn. cbn [Z.eqb].
      unfold vopp. rewrite length_map, length_matvec. apply Hsq. }
    unfold bfgs_update. split.
    + apply rank_two_square; [apply prescale_square; exact Hsq | exact Hs].
    + apply (@rank_two_symmetric _ _ fadd_comm fmul_comm n);
        [apply prescale_square; exact Hsq | exact Hs |].
      apply (@prescale_symmetric _ _ P n); assumption.
Qed.
End RunSymmetric.

(** ** hanso: what [sampgrad] changes *)

Section HansoCases.
Context {F : Type} {SF : Scalar F}.
Local Abbreviation vec := (list F).
Local Abbreviation mat := (list (list F)).

Variable bfgs : F -> F -> F -> Z -> bfgs_result F.
Variable postprocess :
  vec -> F -> list vec -> list vec -> weights F -> Z ->
  loc_dict F * (list vec * (list vec * weights F)).
Variable time_start : F.
Variable time_after : F.

(** [sampgrad] only turns a return into an exception: a call never falls
    off the end of the body, a call without [sampgrad] never raises
    [NotImplementedError], and a call with it either does what the call
    without it does or raises [NotImplementedError] where that one
    returns the BFGS result. *)
Theorem hanso_sampgrad_only_raises
        (normtol : F) (verbose : Z) (fvalquit cpumax : F) :
  let run := fun sampgrad =>
    hanso bfgs postprocess time_start time_after sampgrad normtol verbose
          fvalquit cpumax in
  (forall sampgrad, run sampgrad <> Ok None)
  /\ run false <> Raise NotImplementedError
  /\ (run true = run false
      \/ (run true = Raise NotImplementedError
          /\ exists out, run false = Ok (Some out))).
Proof.
  cbn zeta. unfold hanso, py_assert, argmin, py_index.
  change best_point_msg with (@Ok unit tt).
  destruct (_ =? _)%nat; cbn [bind];
    [| repeat split; try discriminate; left; reflexivity].
  destruct (b_f _) as [| f0' fs]; cbn [bind];
    [repeat split; try discriminate; left; reflexivity |].
  repeat (destruct (nth_error _ _); cbn [bind];
          [| repeat split; try discriminate; left; reflexivity]).
  destruct (isnan _ || isinf _);
    [repeat split; try discriminate; left; reflexivity |].
  destruct (flt (fadd time_start cpumax) time_after);
    [repeat split; try discriminate; left; reflexivity |].
  destruct (flt _ fvalquit);
    [repeat split; try discriminate; left; reflexivity |].
  destruct (flt _ normtol);
    [repeat split; try discriminate; left; reflexivity |].
  cbn [negb]. split; [intros []; discriminate |].
  split; [discriminate |].
  right. split; [reflexivity | eexists; reflexivity].
Qed.
End HansoCases.

(** ** Exact arithmetic: a stationary start, and the best of the starts *)

Section RealRun.
Local Open Scope R_scope.

Variable func : list R -> R.
Variable grad : list R -> list R.
Variable linesch_ww : linesearch R.
Variable linesch_sw : option (linesearch R).
Variable qpspecial : list (list R) -> Z -> list R * list R.
Variable hgprod : list (list R) -> list R -> list R -> list R -> list R.
Variable eig : list (list R) -> list R.
Variable time_start : R.
Variable time_iter : Z -> R.
Variable P : params R.

Lemma Rdot_zeros (g p : list R) :
  Forall (fun a => a = 0) g -> dot g p = 0.
Proof.
  intros Hg. revert p. induction Hg as [| a g Ha Hg IH]; intros [| b p];
    simpl; try reflexivity.
  rewrite IH, Ha. ring.
Qed.

Lemma Rany_nan (g : list R) : any_nan g = false.
Proof. induction g as [| a g IH]; simpl; auto. Qed.

Lemma Rany_inf (g : list R) : any_inf g = false.
Proof. induction g as [| a g IH]; simpl; auto. Qed.

Lemma stationary_run (x0 : list R) :
  (0 < maxit P)%Z ->
  Forall (fun a => a = 0) (grad x0) ->
  eig_nonneg eig (initial_state func grad P x0) = true ->
  bfgs1run func grad linesch_ww linesch_sw qpspecial hgprod eig time_start
           time_iter P x0
  = Ok (output_of (initial_state func grad P x0) 0 6).
Proof.
  intros Hm Hg He. unfold bfgs1run.
  cbn [initial_state st_f st_g]. rewrite Rany_nan, Rany_inf.
  cbn [isnan isinf R_Scalar orb]. unfold main_loop.
  destruct (Z.to_nat (maxit P)) as [| m] eqn:Em; [lia |].
  cbn [loop]. unfold iteration. unfold eig_nonneg in He. rewrite He.
  cbn [py_assert bind]. cbn [initial_state st_g].
  rewrite (Rdot_zeros _ Hg).
  assert (Hle : fle f0 0 = true).
  { simpl. unfold Rleb. destruct (Rle_dec 0 0); [reflexivity | lra]. }
  rewrite Hle. reflexivity.
Qed.

(** Over the reals, a run with [maxit >= 1] that starts where the
    gradient is zero and passes the eigenvalue assertion ends in its
    first iteration with code 6 (not a descent direction), not with code
    0: the start is returned unchanged. *)
Theorem bfgs1run_stationary_start (x0 : list R) :
  (0 < maxit P)%Z ->
  Forall (fun a => a = 0) (grad x0) ->
  eig_nonneg eig (initial_state func grad P x0) = true ->
  exists o,
    bfgs1run func grad linesch_ww linesch_sw qpspecial hgprod eig time_start
             time_iter P x0 = Ok o
    /\ o_info o = 6%Z /\ o_iter o = 0%Z /\ o_x o = x0 /\ o_xrec o = [].
Proof.
  intros Hm Hg He. eexists. split; [apply stationary_run; assumption |].
  cbn. auto.
Qed.
End RealRun.

Section RealHanso.
Local Open Scope R_scope.

Variable bfgs : R -> R -> R -> Z -> bfgs_result R.
Variable postprocess :
  list R -> R -> list (list R) -> list (list R) -> weights R -> Z ->
  loc_dict R * (list (list R) * (list (list R) * weights R)).
Variable time_start : R.
Variable time_after : R.

Lemma Rfle_cases (a b : R) :
  (fle a b = true /\ a <= b) \/ (fle a b = false /\ b < a).
Proof.
  simpl. unfold Rleb. destruct (Rle_dec a b); [left | right]; split;
    auto; lra.
Qed.

(** [argmin_from] keeps a least entry of what it has gone through. *)
Lemma argmin_from_least (l : list R) :
  forall (pre : list R) (bi : nat) (best : R),
    nth_error pre bi = Some best ->
    (forall a, In a pre -> best <= a) ->
    exists v,
      nth_error (pre ++ l) (argmin_from bi best (length pre) l) = Some v
      /\ forall a, In a (pre ++ l) -> v <= a.
Proof.
  induction l as [| a l IH]; intros pre bi best Hb Hall; cbn [argmin_from].
  - rewrite app_nil_r. exists best. auto.
  - cbn [isnan R_Scalar].
    replace (pre ++ a :: l) with ((pre ++ [a]) ++ l)
      by (rewrite <- app_assoc; reflexivity).
    replace (S (length pre)) with (length (pre ++ [a]))
      by (rewrite length_app; cbn; lia).
    destruct (Rfle_cases best a) as [[E Hle] | [E Hlt]]; rewrite E.
    + apply (IH (pre ++ [a]) bi best).
      * rewrite nth_error_app1; [exact Hb |].
        apply nth_error_Some. congruence.
      * intros c Hc. apply in_app_or in Hc. destruct Hc as [Hc | [<- | []]];
          [apply Hall, Hc | exact Hle].
    + apply (IH (pre ++ [a]) (length pre) a).
      * rewrite nth_error_app2 by lia. rewrite Nat.sub_diag. reflexivity.
      * intros c Hc. apply in_app_or in Hc. destruct Hc as [Hc | [<- | []]];
          [specialize (Hall c Hc); lra | lra].
Qed.

Lemma py_index_ok (A : Type) (l : list A) (i : nat) (a : A) :
  py_index l i = Ok a -> nth_error l i = Some a.
Proof.
  unfold py_index. destruct (nth_error l i); [congruence | discriminate].
Qed.

(** Over the reals, what [hanso] returns is the best of the BFGS
    results: its [f] is the least of the final values, and its [x] and
    [H] are the point and the matrix of the same starting point. *)
Theorem hanso_returns_best
        (sampgrad : bool) (normtol : R) (verbose : Z) (fvalquit cpumax : R)
        (out : hanso_output R) :
  let r := bfgs fvalquit normtol cpumax verbose in
  hanso bfgs postprocess time_start time_after sampgrad normtol verbose
        fvalquit cpumax = Ok (Some out) ->
  exists i,
    nth_error (b_f r) i = Some (h_f out)
    /\ nth_error (b_x r) i = Some (h_x out)
    /\ nth_error (b_H r) i = Some (h_H out)
    /\ forall f', In f' (b_f r) -> h_f out <= f'.
Proof.
  intros r E. unfold hanso in E. fold r in E.
  change best_point_msg with (@Ok unit tt) in E.
  apply bind_ok in E. destruct E as [[] [_ E]].
  apply bind_ok in E. destruct E as [indx [Hmin E]].
  apply bind_ok in E. destruct E as [f [Hf E]].
  apply bind_ok in E. destruct E as [x [Hx E]].
  apply bind_ok in E. destruct E as [d [Hd E]].
  apply bind_ok in E. destruct E as [Hm [HH E]].
  apply bind_ok in E. destruct E as [X [HX E]].
  apply bind_ok in E. destruct E as [G [HG E]].
  apply bind_ok in E. destruct E as [w [Hw E]].
  apply py_index_ok in Hf, Hx, HH.
  assert (Hout : h_f out = f /\ h_x out = x /\ h_H out = Hm).
  { cbn [bind] in E.
    repeat match type of E with
           | (if ?c then _ else _) = _ => destruct c
           end;
      try discriminate; injection E as <-; cbn; auto. }
  destruct Hout as [-> [-> ->]].
  exists indx. repeat split; try assumption.
  unfold argmin in Hmin. destruct (b_f r) as [| a l] eqn:El;
    [discriminate |].
  injection Hmin as Hmin.
  destruct (@argmin_from_least l [a] 0%nat a eq_refl) as [v [Hv Hleast]].
  { intros c [<- | []]. lra. }
  cbn [length app] in Hv, Hleast. rewrite Hmin in Hv.
  assert (Efv : f = v) by congruence.
  intros f' Hin. rewrite Efv. apply Hleast. exact Hin.
Qed.
End RealHanso.

(** ** The invariants on concrete runs *)

Section RunScenarios.
Import Demo.
Local Open Scope float_scope.

(** Three iterations on the quadratic from [x0 = [1]] with steps of
    [1/4]: the run exhausts [maxit = 3]. *)
Let three : result (output float) :=
  run quad grad_quad (fixed_step 0.25 0) 0 (with_maxit 3 defaults) [1].

Lemma info_codes_example :
  exists o,
    three = Ok o
    /\ In (o_info o) [0; 1; 2; 3; 5; 6; 7; 8]%Z
    /\ (o_info o = 7%Z ->
        truthy (quitLSfail (with_maxit 3 defaults)) = true).
Proof.
  eexists. split; [vm_compute; reflexivity |].
  apply (@bfgs1run_info_codes float float_Scalar quad grad_quad
           (fixed_step 0.25 0) None qp_latest hg_dense eig_diag 0
           (fun _ => 0) (with_maxit 3 defaults) [1]).
  vm_compute. reflexivity.
Defined.

Lemma iter_range_example :
  exists o,
    three = Ok o
    /\ (0 <= o_iter o)%Z
    /\ (o_info o <> 5%Z -> (o_iter o < maxit (with_maxit 3 defaults))%Z)
    /\ (o_info o = 1%Z -> o_iter o = (maxit (with_maxit 3 defaults) - 1)%Z).
Proof.
  eexists. split; [vm_compute; reflexivity |].
  apply (@bfgs1run_iter_range float float_Scalar quad grad_quad
           (fixed_step 0.25 0) None qp_latest hg_dense eig_diag 0
           (fun _ => 0) (with_maxit 3 defaults) [1]).
  vm_compute. reflexivity.
Defined.

Lemma history_lengths_example :
  exists o,
    three = Ok o
    /\ length (o_fevalrec o) = length (o_xrec o)
    /\ length (o_Hrec o) = length (o_xrec o)
    /\ Z.of_nat (length (o_xrec o))
       = (if o_info o =? 5 then 0
          else if o_info o =? 6 then o_iter o
          else o_iter o + 1)%Z.
Proof.
  eexists. split; [vm_compute; reflexivity |].
  apply (@bfgs1run_history_lengths float float_Scalar quad grad_quad
           (fixed_step 0.25 0) None qp_latest hg_dense eig_diag 0
           (fun _ => 0) (with_maxit 3 defaults) [1]).
  vm_compute. reflexivity.
Defined.

Lemma history_ends_example :
  exists o,
    three = Ok o
    /\ last (o_xrec o) (o_x o) = o_x o
    /\ hd (o_H o) (o_Hrec o) = initial_H (with_maxit 3 defaults) [1].
Proof.
  eexists. split; [vm_compute; reflexivity |].
  apply (@bfgs1run_history_ends float float_Scalar quad grad_quad
           (fixed_step 0.25 0) None qp_latest hg_dense eig_diag 0
           (fun _ => 0) (with_maxit 3 defaults) [1]).
  vm_compute. reflexivity.
Defined.

Lemma cache_leads_example :
  exists o,
    three = Ok o
    /\ exists Xs g Gs,
        o_X o = o_x o :: Xs /\ o_G o = g :: Gs /\ length Xs = length Gs.
Proof.
  eexists. split; [vm_compute; reflexivity |].
  apply (@bfgs1run_cache_leads float float_Scalar quad grad_quad
           (fixed_step 0.25 0) None qp_latest hg_dense eig_diag 0
           (fun _ => 0) (with_maxit 3 defaults) [1]).
  vm_compute. reflexivity.
Defined.

Lemma cache_bound_example :
  (1 <= cache_size (with_maxit 3 defaults) [1%float])%Z
  /\ exists o,
      three = Ok o
      /\ (Z.of_nat (length (o_G o))
          <= cache_size (with_maxit 3 defaults) [1%float])%Z
      /\ (length (o_G o) = 1%nat -> o_w o = w_one /\ o_G o = [o_d o]).
Proof.
  assert (Hng : (1 <= cache_size (with_maxit 3 defaults) [1%float])%Z)
    by (vm_compute; discriminate).
  split; [exact Hng |].
  eexists. split; [vm_compute; reflexivity |].
  apply (@bfgs1run_cache_bound float float_Scalar quad grad_quad
           (fixed_step 0.25 0) None qp_latest hg_dense eig_diag 0
           (fun _ => 0) (with_maxit 3 defaults) [1] _ Hng).
  vm_compute. reflexivity.
Defined.

(** The quadratic from its minimizer, with the strong Wolfe search asked
    for and no module to import. *)
Lemma strongwolfe_missing_example :
  strongwolfe (with_strongwolfe true defaults) = true
  /\ exists o,
      run quad grad_quad (fixed_step 0.25 0) 0
          (with_strongwolfe true defaults) [0] = Ok o
      /\ (o_info o = 5%Z \/ o_info o = 6%Z).
Proof.
  split; [reflexivity |].
  eexists. split; [vm_compute; reflexivity |].
  apply (@bfgs1run_strongwolfe_missing float float_Scalar quad grad_quad
           (fixed_step 0.25 0) None qp_latest hg_dense eig_diag 0
           (fun _ => 0) (with_strongwolfe true defaults) [0] _ eq_refl
           eq_refl).
  vm_compute. reflexivity.
Defined.
End RunScenarios.

Section RealRunScenarios.
Local Open Scope R_scope.

Lemma real_run_stationary :
  real_run [1]
  = Ok (output_of
          (initial_state (fun _ => 0) (fun x => map (fun _ => 0) x)
                         real_params [1]) 0 6).
Proof.
  unfold real_run. apply stationary_run.
  - reflexivity.
  - repeat constructor.
  - reflexivity.
Qed.

Lemma stationary_start_example :
  (0 < maxit real_params)%Z
  /\ Forall (fun a => a = 0) (map (fun _ : R => 0) [1])
  /\ exists o,
      real_run [1] = Ok o
      /\ o_info o = 6%Z /\ o_iter o = 0%Z /\ o_x o = [1] /\ o_xrec o = [].
Proof.
  split; [reflexivity |]. split; [repeat constructor |].
  unfold real_run. apply bfgs1run_stationary_start.
  - reflexivity.
  - repeat constructor.
  - reflexivity.
Defined.

Lemma Rleb_false (a b : R) : b < a -> Rleb a b = false.
Proof. intros Hab. unfold Rleb. destruct (Rle_dec a b); [lra | auto]. Qed.

(** Two starting points with final values 3 and 2: the second is kept. *)
Lemma real_hanso_run :
  exists loc,
    hanso real_bfgs real_post 0 0 false (1 / 1000000) 2 (-1000000) 1000000
    = Ok (Some (mk_hanso [2] 2 loc [[2]] [[1]] w_one [[1]])).
Proof.
  eexists. unfold hanso, real_bfgs at 1 2 3.
  cbn [b_f b_x length Nat.eqb py_assert bind argmin argmin_from].
  cbn [isnan R_Scalar fle]. rewrite (@Rleb_false 3 2) by lra.
  unfold real_bfgs, py_index.
  cbn [b_f b_x b_d b_H b_X b_G b_w nth_error bind].
  change best_point_msg with (@Ok unit tt). cbn [bind real_post fst snd].
  cbn [isnan isinf R_Scalar orb negb].
  repeat match goal with
         | |- (if ?c then _ else _) = _ => destruct c
         end; reflexivity.
Qed.

Lemma returns_best_example :
  exists out,
    hanso real_bfgs real_post 0 0 false (1 / 1000000) 2 (-1000000) 1000000
    = Ok (Some out)
    /\ forall f', In f' [3; 2] -> h_f out <= f'.
Proof.
  destruct real_hanso_run as [loc E].
  eexists. split; [exact E |].
  destruct (@hanso_returns_best real_bfgs real_post 0 0 false _ _ _ _ _ E)
    as [i [_ [_ [_ Hleast]]]].
  exact Hleast.
Defined.
End RealRunScenarios.

(** ** What a code says about the returned values *)

Section RunMeaning.
Context {F : Type} {SF : Scalar F}.
Local Abbreviation vec := (list F).
Local Abbreviation mat := (list (list F)).

Variable func : vec -> F.
Variable grad : vec -> vec.
Variable linesch_ww : linesearch F.
Variable linesch_sw : option (linesearch F).
Variable qpspecial : list vec -> Z -> vec * vec.
Variable hgprod : mat -> vec -> list F -> list F -> vec.
Variable eig : mat -> list F.
Variable time_start : F.
Variable time_iter : Z -> F.
Variable P : params F.

Local Abbreviation bfgs1run' :=
  (bfgs1run func grad linesch_ww linesch_sw qpspecial hgprod eig
            time_start time_iter P).

Lemma check_termination_meaning (cpuf : F) (it : Z) (f : F) (x : vec)
      (fail nG : Z) (dnorm : F) (info : Z) :
  check_termination time_iter P cpuf it f x fail nG dnorm = Ok (Some info) ->
  (info = 2 -> flt f (fvalquit P) = true)
  /\ (info = 3 -> flt (xnormquit P) (norm2 x) = true)
  /\ (info = 0 -> fle dnorm (normtol P) = true)
  /\ (info <> 2 -> flt f (fvalquit P) = false)
  /\ info <> 1 /\ info <> 5 /\ info <> 6.
Proof.
  intros E. rewrite check_termination_flat in E.
  destruct (flt f (fvalquit P));
    [injection E as <-; repeat split; intros; congruence |].
  destruct (flt (xnormquit P) (norm2 x));
    [injection E as <-; repeat split; intros; congruence |].
  destruct ((fail =? 1) && truthy (quitLSfail P));
    [injection E as <-; repeat split; intros; congruence |].
  destruct (fail =? -1);
    [injection E as <-; repeat split; intros; congruence |].
  destruct (fle dnorm (normtol P));
    [injection E as <-; repeat split; intros; congruence |].
  destruct (flt cpuf (time_iter it)); discriminate.
Qed.

(** The codes mean what they say of the values returned with them: with
    code 2 the returned [f] is below [fvalquit]; with code 3 the norm of
    the returned [x] is above [xnormquit]; with code 0 the norm of the
    returned [d] is at most [normtol]; and with any of 0, 3, 7, 8 the
    returned [f] is not below [fvalquit]. *)
Theorem bfgs1run_code_meaning (x0 : vec) (o : output F) :
  bfgs1run' x0 = Ok o ->
  (o_info o = 2 -> flt (o_f o) (fvalquit P) = true)
  /\ (o_info o = 3 -> flt (xnormquit P) (norm2 (o_x o)) = true)
  /\ (o_info o = 0 -> fle (norm2 (o_d o)) (normtol P) = true)
  /\ (In (o_info o) [0; 3; 7; 8] -> flt (o_f o) (fvalquit P) = false).
Proof.
  intros E.
  apply (@bfgs1run_invariant _ _ func grad linesch_ww linesch_sw qpspecial
           hgprod eig time_start time_iter P
           (fun _ _ => True)
           (fun _ o =>
              (o_info o = 2 -> flt (o_f o) (fvalquit P) = true)
              /\ (o_info o = 3 -> flt (xnormquit P) (norm2 (o_x o)) = true)
              /\ (o_info o = 0 -> fle (norm2 (o_d o)) (normtol P) = true)
              /\ (In (o_info o) [0; 3; 7; 8] ->
                  flt (o_f o) (fvalquit P) = false))) in E.
  - destruct E as [-> | [[it [_ Hp]] | [st [_ [_ ->]]]]];
      [| exact Hp |];
      cbn; repeat split; intros; try discriminate;
        repeat match goal with
               | Hor : _ \/ _ |- _ => destruct Hor
               end; try discriminate; contradiction.
  - exact I.
  - intros it st c _ _ Hc. apply iteration_cases in Hc.
    destruct Hc as [-> | [ls [wd [Hls [Hwd [[info [Hterm ->]]
                                           | [u [Hup ->]]]]]]]];
      cbn zeta in *.
    + cbn; repeat split; intros; try discriminate;
        repeat match goal with
               | Hor : _ \/ _ |- _ => destruct Hor
               end; try discriminate; contradiction.
    + apply check_termination_meaning in Hterm.
      destruct Hterm as [H2 [H3 [H0 [Hn2 _]]]].
      cbn [output_of o_info o_f o_x o_d st_f st_x st_d].
      repeat split; auto.
      intros Hin. apply Hn2. cbn in Hin.
      intros ->. repeat destruct Hin as [Hin | Hin]; try discriminate;
        contradiction.
    + exact I.
Qed.

(** In limited-memory mode ([nvec] not 0) the matrix [H] is never
    updated by the rank-two formula.  An iteration that goes on leaves,
    with [s = alpha p] and [y = g' - g] of its own line search and
    [s'y > 0], the matrix [(s'y) ((y'y) H0)] when [scale] is set and the
    matrix it began with when it is not.  So the [H] a run returns is
    the initial one or [(s'y) ((y'y) H0)] for such an [s] and [y], and
    it is the initial one when [scale] is off. *)
Theorem bfgs1run_limited_memory_H (x0 : vec) :
  nvec P <> 0 ->
  (forall (it : Z) (st st' : state F),
      iteration func grad linesch_ww linesch_sw qpspecial hgprod eig
                time_iter P (initial_H P x0) (cache_size P x0)
                (cpufinish time_start P) it st = Ok (Continue st') ->
      exists ls,
        line_search func grad linesch_ww linesch_sw P (st_x st)
                    (direction hgprod P st) = Ok ls
        /\ st_x st' = ls_x ls /\ st_g st' = ls_g ls
        /\ let s := vscale (ls_alpha ls) (direction hgprod P st) in
           let y := vsub (ls_g ls) (st_g st) in
           flt f0 (dot s y) = true
           /\ st_H st'
              = if truthy (scale P)
                then mscale (dot s y) (mscale (dot y y) (initial_H P x0))
                else st_H st)
  /\ (forall o : output F,
         bfgs1run' x0 = Ok o ->
         (o_H o = initial_H P x0
          \/ exists s y,
              flt f0 (dot s y) = true
              /\ o_H o = mscale (dot s y) (mscale (dot y y) (initial_H P x0)))
         /\ (truthy (scale P) = false -> o_H o = initial_H P x0)).
Proof.
  intros Hn.
  assert (Hstep : forall (it : Z) (st st' : state F),
      iteration func grad linesch_ww linesch_sw qpspecial hgprod eig
                time_iter P (initial_H P x0) (cache_size P x0)
                (cpufinish time_start P) it st = Ok (Continue st') ->
      exists ls,
        line_search func grad linesch_ww linesch_sw P (st_x st)
                    (direction hgprod P st) = Ok ls
        /\ st_x st' = ls_x ls /\ st_g st' = ls_g ls
        /\ flt f0 (dot (vscale (ls_alpha ls) (direction hgprod P st))
                       (vsub (ls_g ls) (st_g st))) = true
        /\ st_H st'
           = if truthy (scale P)
             then mscale (dot (vscale (ls_alpha ls) (direction hgprod P st))
                              (vsub (ls_g ls) (st_g st)))
                         (mscale (dot (vsub (ls_g ls) (st_g st))
                                      (vsub (ls_g ls) (st_g st)))
                                 (initial_H P x0))
             else st_H st).
  { intros it st st' Hc. apply iteration_cases in Hc.
    destruct Hc as [Hc | [ls [wd [Hls [Hwd [[info [Hterm Hc]]
                                           | [u [Hup Hc]]]]]]]];
      cbn zeta in *; try discriminate.
    injection Hc as ->. exists ls. split; [exact Hls |].
    cbn [st_x st_g st_H]. split; [reflexivity |]. split; [reflexivity |].
    unfold hessian_step in Hup.
    apply bind_ok in Hup. destruct Hup as [[] [Ha Hup]].
    apply py_assert_ok in Ha. split; [exact Ha |].
    destruct (nvec P =? 0) eqn:E0; [apply Z.eqb_eq in E0; contradiction |].
    injection Hup as <-. reflexivity. }
  split; [exact Hstep |].
  intros o E.
  set (good := fun Hm : mat =>
    (Hm = initial_H P x0
     \/ exists s y,
         flt f0 (dot s y) = true
         /\ Hm = mscale (dot s y) (mscale (dot y y) (initial_H P x0)))
    /\ (truthy (scale P) = false -> Hm = initial_H P x0)).
  apply (@bfgs1run_invariant _ _ func grad linesch_ww linesch_sw qpspecial
           hgprod eig time_start time_iter P
           (fun _ st => good (st_H st))
           (fun _ o => good (o_H o))) in E.
  - destruct E as [-> | [[it [_ Hp]] | [st [_ [Hi ->]]]]];
      [| exact Hp | exact Hi].
    cbn. split; auto.
  - cbn. split; auto.
  - intros it st c _ Hg Hc. destruct c as [st' | o'].
    + destruct (Hstep it st st' Hc) as [ls [_ [_ [_ [Hpos HH]]]]].
      rewrite HH. destruct (truthy (scale P)).
      * split; [right; eauto | discriminate].
      * exact Hg.
    + apply iteration_cases in Hc.
      destruct Hc as [Hc | [ls [wd [Hls [Hwd [[info [Hterm Hc]]
                                             | [u [Hup Hc]]]]]]]];
        cbn zeta in *; try discriminate; injection Hc as ->; exact Hg.
Qed.
End RunMeaning.

Section MeaningScenarios.
Import Demo.
Local Open Scope float_scope.

(** One step on the quadratic with the target value 0.5: the step
    reaches 0.25 and the run ends with code 2. *)
Lemma code_meaning_example :
  exists o,
    run quad grad_quad (fixed_step 0.25 0) 0 with_target [1] = Ok o
    /\ o_info o = 2%Z
    /\ (o_info o = 2%Z -> flt (o_f o) (fvalquit with_target) = true)
    /\ (o_info o = 3%Z ->
        flt (xnormquit with_target) (norm2 (o_x o)) = true)
    /\ (o_info o = 0%Z -> fle (norm2 (o_d o)) (normtol with_target) = true)
    /\ (In (o_info o) [0; 3; 7; 8]%Z ->
        flt (o_f o) (fvalquit with_target) = false).
Proof.
  eexists. split; [vm_compute; reflexivity |].
  split; [reflexivity |].
  apply (@bfgs1run_code_meaning float float_Scalar quad grad_quad
           (fixed_step 0.25 0) None qp_latest hg_dense eig_diag 0
           (fun _ => 0) with_target [1]).
  vm_compute. reflexivity.
Defined.

(** Three iterations in limited-memory mode with [nvec = 2] and [scale]
    set: the returned matrix is the scaled initial one. *)
Lemma limited_memory_example :
  nvec limited <> 0%Z
  /\ exists o,
      run quad grad_quad (fixed_step 0.25 0) 0 limited [1] = Ok o
      /\ o_H o <> initial_H limited [1]
      /\ (o_H o = initial_H limited [1]
          \/ exists s y,
              flt f0 (dot s y) = true
              /\ o_H o
                 = mscale (dot s y) (mscale (dot y y) (initial_H limited [1])))
      /\ (truthy (scale limited) = false -> o_H o = initial_H limited [1]).
Proof.
  assert (Hn : nvec limited <> 0%Z) by (vm_compute; discriminate).
  split; [exact Hn |].
  eexists. split; [vm_compute; reflexivity |].
  split; [vm_compute; discriminate |].
  apply (proj2 (@bfgs1run_limited_memory_H float float_Scalar quad grad_quad
                  (fixed_step 0.25 0) None qp_latest hg_dense eig_diag 0
                  (fun _ => 0) limited [1] Hn)).
  vm_compute. reflexivity.
Defined.
End MeaningScenarios.

(** ** The gradient cache inside the run *)

Section CacheSize.
Variable A : Type.
Variable ngrad : Z.
Hypothesis ngrad_pos : 1 <= ngrad.

Lemma cache_run_since_reset (steps : list (bool * (A * A))) :
  forall (c : cache A) (k : nat),
    cache_ok ngrad c ->
    c_nG c = Z.min ngrad (Z.of_nat k) ->
    c_nG (cache_run ngrad steps c)
    = Z.min ngrad (Z.of_nat (since_reset k steps)).
Proof.
  induction steps as [| [far [x g]] rest IH]; intros c k Hok Hk;
    cbn [cache_run since_reset]; [exact Hk |].
  apply IH; [apply cache_step_ok; assumption |].
  unfold cache_step. destruct Hok as [_ [_ Hb]].
  destruct far; [cbn [c_nG]; lia |].
  destruct (c_nG c <? ngrad) eqn:E; cbn [c_nG].
  - apply Z.ltb_lt in E. lia.
  - apply Z.ltb_ge in E. lia.
Qed.
End CacheSize.

Section CacheInRun.
Context {F : Type} {SF : Scalar F}.
Local Abbreviation vec := (list F).
Local Abbreviation mat := (list (list F)).

Variable func : vec -> F.
Variable grad : vec -> vec.
Variable linesch_ww : linesearch F.
Variable linesch_sw : option (linesearch F).
Variable qpspecial : list vec -> Z -> vec * vec.
Variable hgprod : mat -> vec -> list F -> list F -> vec.
Variable eig : mat -> list F.
Variable time_start : F.
Variable time_iter : Z -> F.
Variable P : params F.

Local Abbreviation iteration' :=
  (iteration func grad linesch_ww linesch_sw qpspecial hgprod eig
             time_iter P).
Local Abbreviation line_search' :=
  (line_search func grad linesch_ww linesch_sw P).
Local Abbreviation run_steps' :=
  (run_steps func grad linesch_ww linesch_sw qpspecial hgprod eig
             time_iter P).

(** What the line-search step of an iteration does to the cache. *)
Lemma iteration_cache (H0m : mat) (ngrad_ : Z) (cpuf : F) (it : Z)
      (st : state F) (c : control F) :
  iteration' H0m ngrad_ cpuf it st = Ok c ->
  c <> Return (output_of st it 6) ->
  exists ls,
    line_search' (st_x st) (direction hgprod P st) = Ok ls
    /\ control_cache c
       = (c_X (cache_step (fst (search_step hgprod P st ls)) ngrad_
                          (ls_x ls) (ls_g ls) (st_cache st)),
          c_G (cache_step (fst (search_step hgprod P st ls)) ngrad_
                          (ls_x ls) (ls_g ls) (st_cache st)))
    /\ match c with
       | Continue st' =>
           st_cache st'
           = cache_step (fst (search_step hgprod P st ls)) ngrad_
                        (ls_x ls) (ls_g ls) (st_cache st)
       | Return _ => True
       end.
Proof.
  intros Hc Hne. apply iteration_cases in Hc.
  destruct Hc as [Hc | [ls [wd [Hls [Hwd [[info [Hterm ->]]
                                         | [u [Hup ->]]]]]]]];
    [contradiction | |]; cbn zeta in *; exists ls;
    (split; [exact Hls |]); split; try exact I; reflexivity.
Qed.

Lemma run_steps_cache (H0m : mat) (ngrad_ : Z) (cpuf : F) (it : Z)
      (st : state F) (steps : list (bool * (vec * vec))) (it' : Z)
      (st' : state F) :
  run_steps' H0m ngrad_ cpuf it st steps it' st' ->
  st_cache st' = cache_run ngrad_ steps (st_cache st)
  /\ it' = it + Z.of_nat (length steps).
Proof.
  induction 1 as [it st | it st ls st1 steps it' st' Hls Hit Hrun IH].
  - cbn. split; [reflexivity | lia].
  - destruct IH as [IHc IHn].
    assert (Hne : Continue st1 <> Return (output_of st it 6))
      by discriminate.
    destruct (iteration_cache _ _ _ Hit Hne) as [ls' [Hls' [_ Hc]]].
    assert (ls' = ls) by congruence. subst ls'.
    cbn [cache_run search_step fst] in *. split.
    + rewrite IHc, Hc. reflexivity.
    + cbn [length]. lia.
Qed.

(** C5 (amended). With a cache size [ngrad >= 1]:
    - the line-search step of every iteration of [bfgs1run] that gets
      past the descent test leaves the cache (in the state it goes on
      with, or in the tuple it returns) as follows: reset to the
      singleton [{(x', g')}] if [alpha * norm(p) > evaldist]; otherwise
      the new pair pushed to the front and, if the size would exceed
      [ngrad], the oldest pair dropped;
    - so at the head of every iteration a run reaches, the cache is what
      these steps make of the initial singleton [{(x0, g0)}]: its size is
      the counter [nG] and never exceeds [ngrad], it holds exactly the
      most recent pairs the run has seen, most recent first, and its
      size is the number of pairs received since the start or the last
      reset (the initial or resetting pair counted), capped at
      [ngrad]. *)
Theorem bfgs1run_cache_contract (x0 : vec) :
  let ngrad_ := cache_size P x0 in
  let H0m := initial_H P x0 in
  let cpuf := cpufinish time_start P in
  1 <= ngrad_ ->
  (forall (it : Z) (st : state F) (c : control F),
      iteration' H0m ngrad_ cpuf it st = Ok c ->
      c <> Return (output_of st it 6) ->
      exists ls,
        line_search' (st_x st) (direction hgprod P st) = Ok ls
        /\ let far :=
             flt (evaldist P)
                 (fmul (ls_alpha ls) (norm2 (direction hgprod P st))) in
           let new :=
             cache_step far ngrad_ (ls_x ls) (ls_g ls) (st_cache st) in
           control_cache c = (c_X new, c_G new)
           /\ (far = true -> new = mk_cache 1 [ls_g ls] [ls_x ls])
           /\ (far = false ->
               cache_ok ngrad_ (st_cache st) ->
               pairs new
               = firstn (Z.to_nat ngrad_)
                        ((ls_x ls, ls_g ls) :: pairs (st_cache st))))
  /\ (forall (steps : list (bool * (vec * vec))) (it' : Z) (st' : state F),
         run_steps' H0m ngrad_ cpuf 0 (initial_state func grad P x0) steps
                    it' st' ->
         let c := st_cache st' in
         let size := length (pairs c) in
         c = cache_run ngrad_ steps (cache_init x0 (grad x0))
         /\ Z.of_nat size = c_nG c
         /\ Z.of_nat size <= ngrad_
         /\ pairs c = firstn size (seen steps (x0, grad x0))
         /\ Z.of_nat size
            = Z.min ngrad_ (Z.of_nat (since_reset 1 steps))).
Proof.
  intros ngrad_ H0m cpuf Hng. split.
  - intros it st c Hc Hne.
    destruct (iteration_cache _ _ _ Hc Hne) as [ls [Hls [Hcc _]]].
    exists ls. split; [exact Hls |]. cbn zeta.
    split; [exact Hcc |]. split.
    + intros ->. reflexivity.
    + intros Hfar Hok. rewrite Hfar.
      apply (cache_step_pairs Hng false (ls_x ls) (ls_g ls) Hok).
  - intros steps it' st' Hrun. cbn zeta.
    destruct (run_steps_cache Hrun) as [Hc _].
    cbn [initial_state st_cache] in Hc. rewrite Hc.
    assert (Hok : cache_ok ngrad_
                    (cache_run ngrad_ steps (cache_init x0 (grad x0))))
      by (apply cache_run_ok, cache_init_ok; exact Hng).
    split; [reflexivity |].
    split; [apply (pairs_length Hok) |].
    split; [rewrite (pairs_length Hok); apply Hok |].
    split.
    + unfold seen. apply cache_run_recent;
        [exact Hng | apply cache_init_ok; exact Hng | reflexivity].
    + rewrite (pairs_length Hok).
      apply cache_run_since_reset;
        [exact Hng | apply cache_init_ok; exact Hng |].
      cbn [cache_init c_nG]. lia.
Qed.
End CacheInRun.

(** ** binary64: addition and multiplication are commutative *)

Section FloatLaws.

Lemma float_add_comm (x y : float) : PrimFloat.add x y = PrimFloat.add y x.
Proof.
  apply FloatAxioms.Prim2SF_inj. rewrite !FloatAxioms.add_spec.
  unfold FloatAxioms.SF64add, SpecFloat.SFadd.
  destruct (FloatOps.Prim2SF x) as [[] | [] | | sx mx ex],
           (FloatOps.Prim2SF y) as [[] | [] | | sy my ey];
    try reflexivity.
  cbv zeta. rewrite (Z.min_comm ex ey).
  rewrite (Z.add_comm (SpecFloat.cond_Zopp sx _)). reflexivity.
Qed.

Lemma float_mul_comm (x y : float) : PrimFloat.mul x y = PrimFloat.mul y x.
Proof.
  apply FloatAxioms.Prim2SF_inj. rewrite !FloatAxioms.mul_spec.
  unfold FloatAxioms.SF64mul, SpecFloat.SFmul.
  destruct (FloatOps.Prim2SF x) as [sx | sx | | sx mx ex],
           (FloatOps.Prim2SF y) as [sy | sy | | sy my ey];
    try reflexivity; try (rewrite (xorb_comm sx sy); reflexivity).
  rewrite (xorb_comm sx sy), (Pos.mul_comm mx my), (Z.add_comm ex ey).
  reflexivity.
Qed.
End FloatLaws.

Section CacheRunScenarios.
Import Demo.
Local Open Scope float_scope.

(** Two steps of [1/4] on the quadratic from [x0 = [1]] with
    [evaldist = 10] and the default cache size 2: neither step is far,
    the second one drops the initial pair. *)
Lemma cache_contract_example :
  (1 <= cache_size near [1%float])%Z
  /\ exists steps st',
      run_steps quad grad_quad (fixed_step 0.25 0) None qp_latest hg_dense
                eig_diag (fun _ => 0) near (initial_H near [1])
                (cache_size near [1]) (cpufinish 0 near) 0
                (initial_state quad grad_quad near [1]) steps 2 st'
      /\ map fst steps = [false; false]
      /\ pairs (st_cache st') = [([0.375], [0.75]); ([0.5], [1])]
      /\ let c := st_cache st' in
         let size := length (pairs c) in
         c = cache_run (cache_size near [1]) steps
                       (cache_init [1] (grad_quad [1]))
         /\ Z.of_nat size = c_nG c
         /\ (Z.of_nat size <= cache_size near [1%float])%Z
         /\ pairs c = firstn size (seen steps ([1], grad_quad [1]))
         /\ Z.of_nat size
            = Z.min (cache_size near [1%float])
                    (Z.of_nat (since_reset 1 steps)).
Proof.
  assert (Hng : (1 <= cache_size near [1%float])%Z)
    by (vm_compute; discriminate).
  split; [exact Hng |].
  do 2 eexists. split.
  { eapply run_steps_cons;
      [vm_compute; reflexivity | vm_compute; reflexivity |].
    eapply run_steps_cons;
      [vm_compute; reflexivity | vm_compute; reflexivity |].
    apply run_steps_nil. }
  split; [vm_compute; reflexivity |].
  split; [vm_compute; reflexivity |].
  apply (proj2 (@bfgs1run_cache_contract float float_Scalar quad grad_quad
                  (fixed_step 0.25 0) None qp_latest hg_dense eig_diag 0
                  (fun _ => 0) near [1] Hng)) with (it' := 2%Z).
  eapply run_steps_cons;
    [vm_compute; reflexivity | vm_compute; reflexivity |].
  eapply run_steps_cons;
    [vm_compute; reflexivity | vm_compute; reflexivity |].
  apply run_steps_nil.
Defined.

(** Three iterations in two dimensions from [x0 = [1, 2]] with steps of
    [1/8] and the start [H0 = [[2, 1], [1, 2]]]: every iteration applies
    the rank-two update. *)
Lemma keeps_symmetric_example :
  nvec planar = 0%Z
  /\ (forall h, H0 planar = Some h -> square (length h) h /\ symmetric h)
  /\ exists o,
      bfgs1run quad grad_quad (fixed_step 0.125 0) None qp_latest hg_dense
               eig_sym2 0 (fun _ => 0) planar [1; 2] = Ok o
      /\ o_info o = 1%Z /\ o_iter o = 2%Z
      /\ o_H o <> initial_H planar [1; 2]
      /\ square (length (initial_H planar [1; 2])) (o_H o)
      /\ symmetric (o_H o).
Proof.
  assert (HH0 : forall h, H0 planar = Some h ->
                          square (length h) h /\ symmetric h).
  { intros h Hh. injection Hh as <-. split.
    - split; [reflexivity | repeat constructor].
    - vm_compute. reflexivity. }
  split; [reflexivity |]. split; [exact HH0 |].
  eexists. split; [vm_compute; reflexivity |].
  split; [reflexivity |]. split; [reflexivity |].
  split; [vm_compute; discriminate |].
  apply (@bfgs1run_keeps_symmetric float float_Scalar float_add_comm
           float_mul_comm quad grad_quad (fixed_step 0.125 0) None qp_latest
           hg_dense eig_sym2 0 (fun _ => 0) planar [1; 2] _ eq_refl HH0).
  vm_compute. reflexivity.
Defined.
End CacheRunScenarios.
